(** * qqbot channel adapter: target parsing, outbound dispatch, session status

    A shallow embedding of the TypeScript sources of the qqbot plugin
    ([outbound.ts]: [parseTarget], [sendText], [sendProactiveMessage];
    [channel.ts]: [looksLikeId], the gateway status callbacks and
    [buildAccountSnapshot]) together with the properties the design
    document states about them; then the rest of the plugin object
    ([normalizeTarget], [isConfigured], [describeAccount], the [setup] hooks,
    the host-facing [outbound.sendText]) and the onboarding adapter
    ([configure], [disable]) with properties read off the code.

    Strings.  A JavaScript string is a sequence of UTF-16 code units.  Every
    string operation of the sources compares against ASCII literals only
    ([startsWith], the regular expressions [/^qqbot:/i] and
    [/^[A-F0-9]{32}$/i]) or cuts behind a matched ASCII prefix ([slice]).
    A [string] is read here with one character per code unit; the characters
    outside ASCII match none of the literals and classes, as the code units
    outside ASCII do. *)

From Stdlib Require Import Bool Arith Lia List Ascii String ZArith.
Import ListNotations.

Local Open Scope string_scope.
Local Open Scope nat_scope.

(** ** JavaScript string primitives used by the sources *)

Module Js.

(** [Canonicalize] of ECMA-262 for a regular expression with the [i] flag and
    without the [u] flag: a code unit is mapped to its upper-case form; a
    non-ASCII unit is never mapped to an ASCII one, so on the ASCII letters of
    the patterns below only [a]..[z] fold onto [A]..[Z]. *)
Definition canonicalize (c : ascii) : ascii :=
  let n := nat_of_ascii c in
  if (97 <=? n) && (n <=? 122) then ascii_of_nat (n - 32) else c.

(** Matching the literal [pat] case-insensitively at the start of [s]:
    the rest of [s] behind the match, if there is one. *)
Fixpoint match_ci (pat s : string) : option string :=
  match pat with
  | EmptyString => Some s
  | String p pat' =>
      match s with
      | EmptyString => None
      | String c s' =>
          if Ascii.eqb (canonicalize p) (canonicalize c)
          then match_ci pat' s' else None
      end
  end.

(** [s.startsWith(p)] *)
Definition startsWith (s p : string) : bool := String.prefix p s.

(** [s.slice(n)] for a non-negative [n]: the code units from index [n] on,
    the empty string when [n] is not below the length. *)
Fixpoint slice (s : string) (n : nat) {struct n} : string :=
  match n with
  | 0 => s
  | S n' => match s with
            | EmptyString => EmptyString
            | String _ s' => slice s' n'
            end
  end.

(** Membership of one code unit in the class [[A-F0-9]] under the [i] flag. *)
Definition hex_class (c : ascii) : bool :=
  let n := nat_of_ascii (canonicalize c) in
  ((65 <=? n) && (n <=? 70)) || ((48 <=? n) && (n <=? 57)).

Fixpoint all_chars (p : ascii -> bool) (s : string) : bool :=
  match s with
  | EmptyString => true
  | String c s' => p c && all_chars p s'
  end.

(** [/^[A-F0-9]{32}$/i.test(s)]: without the [m] flag [$] matches at the end
    of the input only, so the whole string is 32 hexadecimal digits. *)
Definition test_hex32 (s : string) : bool :=
  (String.length s =? 32) && all_chars hex_class s.

(** JavaScript truthiness of an optional string: [undefined], [null] and the
    empty string are falsy. *)
Definition truthy (o : option string) : bool :=
  match o with
  | None => false
  | Some s => negb (String.eqb s "")
  end.

End Js.

(** ** Target parsing ([outbound.ts]) *)

Inductive TargetType : Type := c2c | group | channel.

Record Target : Type := mkTarget { target_type : TargetType; target_id : string }.

(** [to.replace(/^qqbot:/i, "")]: the pattern is anchored and has no [g]
    flag, so at most the one leading occurrence is removed. *)
Definition strip_qqbot (to : string) : string :=
  match Js.match_ci "qqbot:" to with
  | Some rest => rest
  | None => to
  end.

Definition parseTarget (to : string) : Target :=
  let id := strip_qqbot to in
  if Js.startsWith id "c2c:" then mkTarget c2c (Js.slice id 4)
  else if Js.startsWith id "group:" then mkTarget group (Js.slice id 6)
  else if Js.startsWith id "channel:" then mkTarget channel (Js.slice id 8)
  else mkTarget c2c id.

(** ** The host-facing predicate ([channel.ts], [messaging.targetResolver]) *)

Definition looksLikeId (id : string) : bool :=
  let normalized := strip_qqbot id in
  if Js.startsWith normalized "c2c:" || Js.startsWith normalized "group:"
     || Js.startsWith normalized "channel:"
  then true
  else if Js.test_hex32 normalized then true
  else false.

(** ** The chat-platform client ([api.ts]) *)

(** Modelled from the spec: the module [api.ts] is not part of the sources;
    the design document (External interfaces) gives its operations as
    fallible remote calls, [getAccessToken(appId, secret) -> token] and the
    five send operations returning [{id, timestamp}].  [sendText] uses
    nothing else of it, so the client is a parameter of the development. *)
Inductive Timestamp : Type :=
| TsString (s : string)
| TsNumber (n : Z).   (* a [number]; it is only handed on *)

Record MessageResponse : Type := mkResponse {
  response_id : string;
  response_timestamp : Timestamp
}.

(** What a [throw] can carry, as far as the handlers of the sources look at
    it: an instance of [Error] with its [message], or any other value with
    the string [String(err)] renders it to. *)
Inductive Thrown : Type :=
| ThrownError (message : string)
| ThrownOther (rendering : string).

Inductive Completion (A : Type) : Type :=
| Normal (a : A)
| Throw (e : Thrown).

Arguments Normal {A} a.
Arguments Throw {A} e.

(** The remote operations with their arguments, for the record of network
    activity.  The last argument of the three passive operations is the
    optional [msgId] being replied to. *)
Inductive ApiCall : Type :=
| GetAccessToken (appId clientSecret : string)
| SendC2CMessage (accessToken openid content : string) (msgId : option string)
| SendGroupMessage (accessToken groupOpenid content : string) (msgId : option string)
| SendChannelMessage (accessToken channelId content : string) (msgId : option string)
| SendProactiveC2CMessage (accessToken openid content : string)
| SendProactiveGroupMessage (accessToken groupOpenid content : string).

(** One entry of the record: the call and, if it threw, what it threw. *)
Record ApiEvent : Type := mkEvent {
  event_call : ApiCall;
  event_thrown : option Thrown
}.

(** A platform client over a world [W] (the remote service, the network, the
    client's token cache): every operation may answer differently at every
    call, and may throw.  What other tasks do to the world while a call is
    awaited is part of the transition of that call. *)
Record PlatformClient (W : Type) : Type := mkClient {
  api_getAccessToken : string -> string -> W -> Completion string * W;
  api_sendC2CMessage :
    string -> string -> string -> option string -> W -> Completion MessageResponse * W;
  api_sendGroupMessage :
    string -> string -> string -> option string -> W -> Completion MessageResponse * W;
  api_sendChannelMessage :
    string -> string -> string -> option string -> W -> Completion MessageResponse * W;
  api_sendProactiveC2CMessage :
    string -> string -> string -> W -> Completion MessageResponse * W;
  api_sendProactiveGroupMessage :
    string -> string -> string -> W -> Completion MessageResponse * W
}.

Arguments api_getAccessToken {W} _.
Arguments api_sendC2CMessage {W} _.
Arguments api_sendGroupMessage {W} _.
Arguments api_sendChannelMessage {W} _.
Arguments api_sendProactiveC2CMessage {W} _.
Arguments api_sendProactiveGroupMessage {W} _.

(** ** Asynchronous code as a computation over the world

    An [async] function body is run to completion here: it takes the world,
    and yields how it completed (a value or a [throw]), the world afterwards
    and the remote calls it awaited, in order. *)

Module Async.

Definition M (W A : Type) : Type := W -> Completion A * W * list ApiEvent.

Definition ret {W A} (a : A) : M W A := fun w => (Normal a, w, []).

Definition bind {W A B} (m : M W A) (k : A -> M W B) : M W B :=
  fun w =>
    match m w with
    | (Normal a, w1, t1) =>
        match k a w1 with
        | (r, w2, t2) => (r, w2, (t1 ++ t2)%list)
        end
    | (Throw e, w1, t1) => (Throw e, w1, t1)
    end.

(** [try { m } catch (err) { h err }] *)
Definition try_catch {W A} (m : M W A) (h : Thrown -> M W A) : M W A :=
  fun w =>
    match m w with
    | (Normal a, w1, t1) => (Normal a, w1, t1)
    | (Throw e, w1, t1) =>
        match h e w1 with
        | (r, w2, t2) => (r, w2, (t1 ++ t2)%list)
        end
    end.

(** [await op(...)]: the call is made, recorded, and its completion is the
    completion of the [await]. *)
Definition await {W A} (c : ApiCall) (op : W -> Completion A * W) : M W A :=
  fun w =>
    match op w with
    | (Normal a, w1) => (Normal a, w1, [mkEvent c None])
    | (Throw e, w1) => (Throw e, w1, [mkEvent c (Some e)])
    end.

End Async.

Declare Scope async_scope.
Delimit Scope async_scope with async.
Notation "x <- m ;; k" := (Async.bind m (fun x => k))
  (at level 61, m at next level, right associativity) : async_scope.
Notation "'try' m 'catch' h" := (Async.try_catch m h)
  (at level 62, m at level 61) : async_scope.

(** ** Outbound dispatch ([outbound.ts]) *)

Inductive SecretSource : Type := inline | file | env | none.

(** Modelled from the spec: [types.ts] is not part of the sources; the fields
    of a resolved account are those of the design document's AccountConfig,
    which are also the ones [channel.ts] and [outbound.ts] read. *)
Record ResolvedQQBotAccount : Type := mkAccount {
  acct_accountId : string;
  acct_name : option string;
  acct_enabled : bool;
  acct_appId : option string;
  acct_clientSecret : option string;
  acct_secretSource : SecretSource;
  acct_imageServerBaseUrl : option string
}.

Record OutboundContext : Type := mkContext {
  ctx_to : string;
  ctx_text : string;
  ctx_accountId : option string;
  ctx_replyToId : option string;
  ctx_account : ResolvedQQBotAccount
}.

Record OutboundResult : Type := mkResult {
  res_channel : string;
  res_messageId : option string;
  res_timestamp : option Timestamp;
  res_error : option string
}.

(** The guard [!account.appId || !account.clientSecret] and the narrowing of
    both fields to strings behind it. *)
Definition credentials (account : ResolvedQQBotAccount) : option (string * string) :=
  if negb (Js.truthy (acct_appId account)) || negb (Js.truthy (acct_clientSecret account))
  then None
  else match acct_appId account, acct_clientSecret account with
       | Some appId, Some clientSecret => Some (appId, clientSecret)
       | _, _ => None
       end.

(** The guard [!replyToId] and the narrowing behind it. *)
Definition reply_marker (replyToId : option string) : option string :=
  if negb (Js.truthy replyToId) then None else replyToId.

Definition not_configured : OutboundResult :=
  mkResult "qqbot" None None
    (Some "QQBot not configured (missing appId or clientSecret)").

(** [{ channel: "qqbot", messageId: result.id, timestamp: result.timestamp }] *)
Definition sent (result : MessageResponse) : OutboundResult :=
  mkResult "qqbot" (Some (response_id result)) (Some (response_timestamp result)) None.

(** [err instanceof Error ? err.message : String(err)] *)
Definition message_of (err : Thrown) : string :=
  match err with
  | ThrownError message => message
  | ThrownOther rendering => rendering
  end.

(** [{ channel: "qqbot", error: message }] *)
Definition failed (err : Thrown) : OutboundResult :=
  mkResult "qqbot" None None (Some (message_of err)).

Section Outbound.

Context {W : Type} (client : PlatformClient W).

Local Open Scope async_scope.

Definition getAccessToken (appId clientSecret : string) : Async.M W string :=
  Async.await (GetAccessToken appId clientSecret)
    (api_getAccessToken client appId clientSecret).

Definition sendC2CMessage (accessToken openid content : string) (msgId : option string)
  : Async.M W MessageResponse :=
  Async.await (SendC2CMessage accessToken openid content msgId)
    (api_sendC2CMessage client accessToken openid content msgId).

Definition sendGroupMessage (accessToken groupOpenid content : string) (msgId : option string)
  : Async.M W MessageResponse :=
  Async.await (SendGroupMessage accessToken groupOpenid content msgId)
    (api_sendGroupMessage client accessToken groupOpenid content msgId).

Definition sendChannelMessage (accessToken channelId content : string) (msgId : option string)
  : Async.M W MessageResponse :=
  Async.await (SendChannelMessage accessToken channelId content msgId)
    (api_sendChannelMessage client accessToken channelId content msgId).

Definition sendProactiveC2CMessage (accessToken openid content : string)
  : Async.M W MessageResponse :=
  Async.await (SendProactiveC2CMessage accessToken openid content)
    (api_sendProactiveC2CMessage client accessToken openid content).

Definition sendProactiveGroupMessage (accessToken groupOpenid content : string)
  : Async.M W MessageResponse :=
  Async.await (SendProactiveGroupMessage accessToken groupOpenid content)
    (api_sendProactiveGroupMessage client accessToken groupOpenid content).

(** [sendText(ctx)].  The two [console.log] lines write diagnostics to the
    console only and are left out. *)
Definition sendText (ctx : OutboundContext) : Async.M W OutboundResult :=
  let to := ctx_to ctx in
  let text := ctx_text ctx in
  let replyToId := ctx_replyToId ctx in
  let account := ctx_account ctx in
  match credentials account with
  | None => Async.ret not_configured
  | Some (appId, clientSecret) =>
      try (
        accessToken <- getAccessToken appId clientSecret ;;
        let target := parseTarget to in
        match reply_marker replyToId with
        | None =>
            match target_type target with
            | c2c =>
                result <- sendProactiveC2CMessage accessToken (target_id target) text ;;
                Async.ret (sent result)
            | group =>
                result <- sendProactiveGroupMessage accessToken (target_id target) text ;;
                Async.ret (sent result)
            | channel =>
                result <- sendChannelMessage accessToken (target_id target) text None ;;
                Async.ret (sent result)
            end
        | Some replyToId =>
            match target_type target with
            | c2c =>
                result <- sendC2CMessage accessToken (target_id target) text (Some replyToId) ;;
                Async.ret (sent result)
            | group =>
                result <- sendGroupMessage accessToken (target_id target) text (Some replyToId) ;;
                Async.ret (sent result)
            | channel =>
                result <- sendChannelMessage accessToken (target_id target) text (Some replyToId) ;;
                Async.ret (sent result)
            end
        end
      ) catch (fun err => Async.ret (failed err))
  end.

(** [sendProactiveMessage(account, to, text)] *)
Definition sendProactiveMessage (account : ResolvedQQBotAccount) (to text : string)
  : Async.M W OutboundResult :=
  match credentials account with
  | None => Async.ret not_configured
  | Some (appId, clientSecret) =>
      try (
        accessToken <- getAccessToken appId clientSecret ;;
        let target := parseTarget to in
        match target_type target with
        | c2c =>
            result <- sendProactiveC2CMessage accessToken (target_id target) text ;;
            Async.ret (sent result)
        | group =>
            result <- sendProactiveGroupMessage accessToken (target_id target) text ;;
            Async.ret (sent result)
        | channel =>
            result <- sendChannelMessage accessToken (target_id target) text None ;;
            Async.ret (sent result)
        end
      ) catch (fun err => Async.ret (failed err))
  end.

End Outbound.

(** ** Session status ([channel.ts], [gateway] and [status]) *)

Definition DEFAULT_ACCOUNT_ID : string := "default".

(** The host's per-account snapshot.  Only [accountId] is mandatory; the
    sources read every other field through [?.] and [??], so each of them may
    be missing ([undefined] and [null] are both [None]). *)
Record ChannelAccountSnapshot : Type := mkSnapshot {
  snap_accountId : string;
  snap_name : option string;
  snap_enabled : option bool;
  snap_configured : option bool;
  snap_tokenSource : option SecretSource;
  snap_running : option bool;
  snap_connected : option bool;
  snap_lastConnectedAt : option Z;
  snap_lastError : option string
}.

(** [status.defaultRuntime] *)
Definition defaultRuntime : ChannelAccountSnapshot :=
  mkSnapshot DEFAULT_ACCOUNT_ID None None None None (Some false) (Some false) None None.

(** The [onReady] callback of [gateway.startAccount]:
    [ctx.setStatus({...ctx.getStatus(), running: true, connected: true,
    lastConnectedAt: Date.now()})], as a function of the clock reading and of
    the status the host holds. *)
Definition onReady (now : Z) (status : ChannelAccountSnapshot) : ChannelAccountSnapshot :=
  mkSnapshot (snap_accountId status) (snap_name status) (snap_enabled status)
    (snap_configured status) (snap_tokenSource status)
    (Some true) (Some true) (Some now) (snap_lastError status).

(** The [onError] callback:
    [ctx.setStatus({...ctx.getStatus(), lastError: error.message})]. *)
Definition onError (message : string) (status : ChannelAccountSnapshot) : ChannelAccountSnapshot :=
  mkSnapshot (snap_accountId status) (snap_name status) (snap_enabled status)
    (snap_configured status) (snap_tokenSource status)
    (snap_running status) (snap_connected status) (snap_lastConnectedAt status)
    (Some message).

(** What the gateway reports to the plugin during one run. *)
Inductive GatewayCallback : Type :=
| Ready (now : Z)
| Error (message : string).

Definition callback (status : ChannelAccountSnapshot) (cb : GatewayCallback)
  : ChannelAccountSnapshot :=
  match cb with
  | Ready now => onReady now status
  | Error message => onError message status
  end.

(** The status the host holds after a sequence of callbacks. *)
Definition after_callbacks (cbs : list GatewayCallback) (status : ChannelAccountSnapshot)
  : ChannelAccountSnapshot :=
  fold_left callback cbs status.

(** [x ?? d] on an optional boolean *)
Definition nullish_or (x : option bool) (d : bool) : bool :=
  match x with
  | Some b => b
  | None => d
  end.

(** [runtime?.f]: the field of an optional object *)
Definition opt_field {A B} (o : option A) (f : A -> option B) : option B :=
  match o with
  | Some a => f a
  | None => None
  end.

(** [status.buildAccountSnapshot({account, runtime})] *)
Definition buildAccountSnapshot (account : option ResolvedQQBotAccount)
    (runtime : option ChannelAccountSnapshot) : ChannelAccountSnapshot :=
  mkSnapshot
    (match account with
     | Some a => acct_accountId a
     | None => DEFAULT_ACCOUNT_ID
     end)
    (opt_field account acct_name)
    (Some (match account with
           | Some a => acct_enabled a
           | None => false
           end))
    (Some (Js.truthy (opt_field account acct_appId)
           && Js.truthy (opt_field account acct_clientSecret)))
    (match account with
     | Some a => Some (acct_secretSource a)
     | None => None
     end)
    (Some (nullish_or (opt_field runtime snap_running) false))
    (Some (nullish_or (opt_field runtime snap_connected) false))
    (opt_field runtime snap_lastConnectedAt)
    (opt_field runtime snap_lastError).

(** The invariant of the data model: [connected => running]. *)
Definition connected_implies_running (status : ChannelAccountSnapshot) : Prop :=
  snap_connected status = Some true -> snap_running status = Some true.

(** ** The access-token cache (design document, section 4.2) *)

Module AccessTokenCache.

(** Modelled from the spec: the token cache lives in [api.ts], which is not
    part of the sources.  The definitions below follow section 4.2 of the
    design document: a cache keyed by the credential pair, a token served
    from the cache while [now < expiresAt - safetyMargin], otherwise a fresh
    issuance call whose result replaces the entry; callers of a key whose
    issuance is in flight await that issuance; a failed issuance leaves the
    cache as it was and fails every caller that awaited it.  Callers run on
    one event loop, so concurrency is the interleaving of the atomic steps
    [Call] (a caller enters [getToken]) and [Issued]/[IssueFailed] (the
    platform answers an issuance call). *)
Definition Key : Type := (string * string)%type.

Definition key_eqb (k1 k2 : Key) : bool :=
  String.eqb (fst k1) (fst k2) && String.eqb (snd k1) (snd k2).

Record AccessToken : Type := mkToken {
  token_value : string;
  token_expiresAt : Z
}.

Definition Caller : Type := nat.

Inductive Answer : Type :=
| Token (t : AccessToken)
| Failure (err : string).

(** An issuance call that has not been answered yet, with the callers that
    await it, in order of arrival. *)
Record Issuance : Type := mkIssuance {
  issuance_key : Key;
  issuance_waiters : list Caller
}.

Record State : Type := mkState {
  cache : list (Key * AccessToken);
  inflight : list Issuance;
  issued : list Key;
  answers : list (Caller * Answer)
}.

Definition empty : State := mkState [] [] [] [].

Inductive Event : Type :=
| Call (c : Caller) (k : Key) (now : Z)
| Issued (k : Key) (t : AccessToken)
| IssueFailed (k : Key) (err : string).

Definition event_key (e : Event) : Key :=
  match e with
  | Call _ k _ => k
  | Issued k _ => k
  | IssueFailed k _ => k
  end.

Fixpoint cache_get (k : Key) (c : list (Key * AccessToken)) : option AccessToken :=
  match c with
  | [] => None
  | (k', t) :: c' => if key_eqb k k' then Some t else cache_get k c'
  end.

Definition cache_put (k : Key) (t : AccessToken) (c : list (Key * AccessToken))
  : list (Key * AccessToken) :=
  (k, t) :: filter (fun e => negb (key_eqb k (fst e))) c.

Fixpoint waiters_of (k : Key) (l : list Issuance) : option (list Caller) :=
  match l with
  | [] => None
  | i :: l' => if key_eqb k (issuance_key i) then Some (issuance_waiters i)
               else waiters_of k l'
  end.

(** A caller joins the issuance of its key. *)
Definition join (k : Key) (c : Caller) (l : list Issuance) : list Issuance :=
  map (fun i => if key_eqb k (issuance_key i)
                then mkIssuance (issuance_key i) (issuance_waiters i ++ [c])
                else i) l.

(** The issuance of a key is over. *)
Definition settle (k : Key) (l : list Issuance) : list Issuance :=
  filter (fun i => negb (key_eqb k (issuance_key i))) l.

Section Steps.

Variable safetyMargin : Z.

(** A cached token may be served at time [now]. *)
Definition usable (now : Z) (t : AccessToken) : bool :=
  (now <? token_expiresAt t - safetyMargin)%Z.

Definition cached (k : Key) (now : Z) (s : State) : option AccessToken :=
  match cache_get k (cache s) with
  | Some t => if usable now t then Some t else None
  | None => None
  end.

(** [getToken(appId, clientSecret)] entered by caller [c] at time [now]. *)
Definition getToken (c : Caller) (k : Key) (now : Z) (s : State) : State :=
  match cached k now s with
  | Some t => mkState (cache s) (inflight s) (issued s) (answers s ++ [(c, Token t)])
  | None =>
      match waiters_of k (inflight s) with
      | Some _ => mkState (cache s) (join k c (inflight s)) (issued s) (answers s)
      | None =>
          mkState (cache s) (inflight s ++ [mkIssuance k [c]]) (issued s ++ [k]) (answers s)
      end
  end.

(** The platform answers the issuance call of [k]; an answer to a call that
    was never made changes nothing. *)
Definition complete (k : Key) (a : Answer) (s : State) : State :=
  match waiters_of k (inflight s) with
  | None => s
  | Some ws =>
      mkState
        (match a with
         | Token t => cache_put k t (cache s)
         | Failure _ => cache s
         end)
        (settle k (inflight s))
        (issued s)
        (answers s ++ map (fun c => (c, a)) ws)
  end.

Definition step (s : State) (e : Event) : State :=
  match e with
  | Call c k now => getToken c k now s
  | Issued k t => complete k (Token t) s
  | IssueFailed k err => complete k (Failure err) s
  end.

Definition run (es : list Event) (s : State) : State := fold_left step es s.

End Steps.

(** The keys with an issuance in flight. *)
Definition inflight_keys (s : State) : list Key := map issuance_key (inflight s).

(** The number of issuance calls made for [k] so far. *)
Definition issuances (k : Key) (s : State) : nat :=
  List.length (filter (key_eqb k) (issued s)).

(** Two states that agree on everything about the key [k]. *)
Definition same_for (k : Key) (s s' : State) : Prop :=
  cache_get k (cache s') = cache_get k (cache s)
  /\ waiters_of k (inflight s') = waiters_of k (inflight s)
  /\ issuances k s' = issuances k s.

End AccessTokenCache.

(** ** The rest of the plugin object ([channel.ts]) *)

(** [messaging.normalizeTarget]: [{ ok: true, to: normalized }] *)
Record NormalizedTarget : Type := mkNormalized {
  norm_ok : bool;
  norm_to : string
}.

Definition normalizeTarget (target : string) : NormalizedTarget :=
  let normalized := strip_qqbot target in
  mkNormalized true normalized.

(** [config.isConfigured]: [Boolean(account?.appId && account?.clientSecret)] *)
Definition isConfigured (account : option ResolvedQQBotAccount) : bool :=
  Js.truthy (opt_field account acct_appId)
  && Js.truthy (opt_field account acct_clientSecret).

(** [config.describeAccount]: the descriptive fields of a snapshot; the
    runtime fields are not set. *)
Definition describeAccount (account : option ResolvedQQBotAccount)
  : ChannelAccountSnapshot :=
  mkSnapshot
    (match account with
     | Some a => acct_accountId a
     | None => DEFAULT_ACCOUNT_ID
     end)
    (opt_field account acct_name)
    (Some (match account with
           | Some a => acct_enabled a
           | None => false
           end))
    (Some (Js.truthy (opt_field account acct_appId)
           && Js.truthy (opt_field account acct_clientSecret)))
    (match account with
     | Some a => Some (acct_secretSource a)
     | None => None
     end)
    None None None None.

(** The input of the [setup] hooks, as far as the plugin reads it. *)
Record SetupInput : Type := mkSetupInput {
  in_token : option string;
  in_tokenFile : option string;
  in_useEnv : option bool;
  in_name : option string;
  in_imageServerBaseUrl : option string
}.

(** Truthiness of an optional boolean. *)
Definition truthy_flag (o : option bool) : bool :=
  match o with
  | Some b => b
  | None => false
  end.

(** [setup.validateInput]: the complaint, or [null]. *)
Definition validateInput (input : SetupInput) : option string :=
  if negb (Js.truthy (in_token input)) && negb (Js.truthy (in_tokenFile input))
     && negb (truthy_flag (in_useEnv input))
  then Some "QQBot requires --token (format: appId:clientSecret) or --use-env"
  else None.

(** [s.split(":")]: the pieces between the colons; one piece more than
    there are colons, so never an empty array. *)
Fixpoint split_colon (s : string) : list string :=
  match s with
  | EmptyString => [EmptyString]
  | String c s' =>
      if Ascii.eqb c ":" then EmptyString :: split_colon s'
      else match split_colon s' with
           | piece :: pieces => String c piece :: pieces
           | [] => [String c EmptyString]
           end
  end.

(** The third argument [setup.applyAccountConfig] hands to
    [applyQQBotAccountConfig]. *)
Record AccountPatch : Type := mkPatch {
  patch_appId : string;
  patch_clientSecret : string;
  patch_clientSecretFile : option string;
  patch_name : option string;
  patch_imageServerBaseUrl : option string
}.

(** The credentials [setup.applyAccountConfig] reads out of [input.token]:
    both empty unless the token is truthy and splits into exactly two
    pieces. *)
Definition token_credentials (token : option string) : string * string :=
  match token with
  | Some t =>
      if Js.truthy (Some t) then
        match split_colon t with
        | [appId; clientSecret] => (appId, clientSecret)
        | _ => (EmptyString, EmptyString)
        end
      else (EmptyString, EmptyString)
  | None => (EmptyString, EmptyString)
  end.

(** [setup.applyAccountConfig({cfg, accountId, input})], over the
    [applyQQBotAccountConfig] of [config.ts], which is not part of the
    sources and is a parameter here. *)
Definition applyAccountConfig {Cfg : Type}
    (applyQQBotAccountConfig : Cfg -> string -> AccountPatch -> Cfg)
    (cfg : Cfg) (accountId : string) (input : SetupInput) : Cfg :=
  let (appId, clientSecret) := token_credentials (in_token input) in
  applyQQBotAccountConfig cfg accountId
    (mkPatch appId clientSecret (in_tokenFile input) (in_name input)
       (in_imageServerBaseUrl input)).

(** What the host gets back from [outbound.sendText]: the [error] is an
    [Error] object made from the message, or [undefined]. *)
Record HostSendResult : Type := mkHostResult {
  host_channel : string;
  host_messageId : option string;
  host_error : option Thrown
}.

Section HostOutbound.

Context {W Cfg : Type} (client : PlatformClient W).

(** [resolveQQBotAccount] of [config.ts], which is not part of the sources. *)
Variable resolveQQBotAccount : Cfg -> option string -> ResolvedQQBotAccount.

Local Open Scope async_scope.

(** [outbound.sendText] of the plugin object: the account is resolved, the
    dispatcher of [outbound.ts] is awaited, and its result is repackaged
    ([result.error ? new Error(result.error) : undefined]). *)
Definition outbound_sendText (to text : string) (accountId replyToId : option string)
    (cfg : Cfg) : Async.M W HostSendResult :=
  let account := resolveQQBotAccount cfg accountId in
  result <- sendText client (mkContext to text accountId replyToId account) ;;
  Async.ret
    (mkHostResult "qqbot" (res_messageId result)
       (match res_error result with
        | Some message =>
            if Js.truthy (Some message) then Some (ThrownError message) else None
        | None => None
        end)).

End HostOutbound.

(** ** The onboarding adapter ([onboarding.ts]): the configuration it writes *)

Module Onboarding.

Section Config.

(** The values under keys the adapter does not read. *)
Context {Json : Type}.

(** The keys of an object outside of the declared ones
    ([[key: string]: unknown]). *)
Definition Rest : Type := string -> option Json.

Definition no_rest : Rest := fun _ => None.

(** One entry of [accounts]. *)
Record AccountEntry : Type := mkEntry {
  entry_enabled : option bool;
  entry_appId : option string;
  entry_clientSecret : option string;
  entry_clientSecretFile : option string;
  entry_name : option string;
  entry_imageServerBaseUrl : option string
}.

Record QQBotChannelConfig : Type := mkQQBot {
  qq_enabled : option bool;
  qq_appId : option string;
  qq_clientSecret : option string;
  qq_clientSecretFile : option string;
  qq_name : option string;
  qq_imageServerBaseUrl : option string;
  qq_accounts : option (string -> option AccountEntry)
}.

Record Channels : Type := mkChannels {
  ch_qqbot : option QQBotChannelConfig;
  ch_rest : Rest
}.

Record MoltbotConfig : Type := mkConfig {
  cfg_channels : option Channels;
  cfg_rest : Rest
}.

(** [{...cfg.channels?.qqbot}]: the channel block, empty when there is none. *)
Definition qqbot_block (cfg : MoltbotConfig) : QQBotChannelConfig :=
  match cfg_channels cfg with
  | Some ch =>
      match ch_qqbot ch with
      | Some q => q
      | None => mkQQBot None None None None None None None
      end
  | None => mkQQBot None None None None None None None
  end.

(** [{...accounts?.[accountId]}]: the entry of an account, empty when there
    is none. *)
Definition account_entry (q : QQBotChannelConfig) (accountId : string) : AccountEntry :=
  match qq_accounts q with
  | Some accounts =>
      match accounts accountId with
      | Some e => e
      | None => mkEntry None None None None None None
      end
  | None => mkEntry None None None None None None
  end.

(** [{...accounts, [accountId]: entry}] *)
Definition set_account (q : QQBotChannelConfig) (accountId : string) (entry : AccountEntry)
  : string -> option AccountEntry :=
  fun id =>
    if String.eqb id accountId then Some entry
    else match qq_accounts q with
         | Some accounts => accounts id
         | None => None
         end.

(** [{...cfg, channels: {...cfg.channels, qqbot: q}}] *)
Definition with_qqbot (cfg : MoltbotConfig) (q : QQBotChannelConfig) : MoltbotConfig :=
  mkConfig
    (Some (mkChannels (Some q)
             (match cfg_channels cfg with
              | Some ch => ch_rest ch
              | None => no_rest
              end)))
    (cfg_rest cfg).

(** [...(imageServerBaseUrl ? { imageServerBaseUrl } : {})] over the value
    the object had. *)
Definition image_or (imageServerBaseUrl old : option string) : option string :=
  if Js.truthy imageServerBaseUrl then imageServerBaseUrl else old.

(** [disable(cfg)] *)
Definition disable (cfg : MoltbotConfig) : MoltbotConfig :=
  let q := qqbot_block cfg in
  with_qqbot cfg
    (mkQQBot (Some false) (qq_appId q) (qq_clientSecret q) (qq_clientSecretFile q)
       (qq_name q) (qq_imageServerBaseUrl q) (qq_accounts q)).

(** The branch of [configure] in which the user keeps the credentials of the
    environment: [qqbot: {...next.channels?.qqbot, enabled: true}]. *)
Definition enable (next : MoltbotConfig) : MoltbotConfig :=
  let q := qqbot_block next in
  with_qqbot next
    (mkQQBot (Some true) (qq_appId q) (qq_clientSecret q) (qq_clientSecretFile q)
       (qq_name q) (qq_imageServerBaseUrl q) (qq_accounts q)).

(** The last step of [configure] ("apply the configuration"), as a function
    of the variables in scope there: the configuration so far, the account
    id, and what the user entered ([null] when nothing was asked for). *)
Definition apply_entered (next : MoltbotConfig) (accountId : string)
    (appId clientSecret imageServerBaseUrl : option string) : MoltbotConfig :=
  let q := qqbot_block next in
  if Js.truthy appId && Js.truthy clientSecret then
    if String.eqb accountId DEFAULT_ACCOUNT_ID then
      with_qqbot next
        (mkQQBot (Some true) appId clientSecret (qq_clientSecretFile q) (qq_name q)
           (image_or imageServerBaseUrl (qq_imageServerBaseUrl q)) (qq_accounts q))
    else
      let e := account_entry q accountId in
      with_qqbot next
        (mkQQBot (Some true) (qq_appId q) (qq_clientSecret q) (qq_clientSecretFile q)
           (qq_name q) (qq_imageServerBaseUrl q)
           (Some (set_account q accountId
                    (mkEntry (Some true) appId clientSecret (entry_clientSecretFile e)
                       (entry_name e)
                       (image_or imageServerBaseUrl (entry_imageServerBaseUrl e))))))
  else if Js.truthy imageServerBaseUrl then
    if String.eqb accountId DEFAULT_ACCOUNT_ID then
      with_qqbot next
        (mkQQBot (qq_enabled q) (qq_appId q) (qq_clientSecret q) (qq_clientSecretFile q)
           (qq_name q) imageServerBaseUrl (qq_accounts q))
    else
      let e := account_entry q accountId in
      with_qqbot next
        (mkQQBot (qq_enabled q) (qq_appId q) (qq_clientSecret q) (qq_clientSecretFile q)
           (qq_name q) (qq_imageServerBaseUrl q)
           (Some (set_account q accountId
                    (mkEntry (entry_enabled e) (entry_appId e) (entry_clientSecret e)
                       (entry_clientSecretFile e) (entry_name e) imageServerBaseUrl))))
  else next.

(** Two configurations with the same content: the same fields, and the same
    entry under every account id. *)
Definition same_accounts (a b : option (string -> option AccountEntry)) : Prop :=
  match a, b with
  | Some f, Some g => forall id, f id = g id
  | None, None => True
  | _, _ => False
  end.

Definition same_config (a b : MoltbotConfig) : Prop :=
  cfg_rest a = cfg_rest b
  /\ match cfg_channels a, cfg_channels b with
     | Some ca, Some cb =>
         ch_rest ca = ch_rest cb
         /\ match ch_qqbot ca, ch_qqbot cb with
            | Some qa, Some qb =>
                qq_enabled qa = qq_enabled qb
                /\ qq_appId qa = qq_appId qb
                /\ qq_clientSecret qa = qq_clientSecret qb
                /\ qq_clientSecretFile qa = qq_clientSecretFile qb
                /\ qq_name qa = qq_name qb
                /\ qq_imageServerBaseUrl qa = qq_imageServerBaseUrl qb
                /\ same_accounts (qq_accounts qa) (qq_accounts qb)
            | None, None => True
            | _, _ => False
            end
     | None, None => True
     | _, _ => False
     end.

End Config.

End Onboarding.

(** ** The onboarding adapter: the wizard ([onboarding.ts], [configure]) *)

Module Wizard.

Import Onboarding.

(** What the wizard shows.  The texts (messages, placeholders, help) are not
    part of the model: each prompt is named by what it asks for.  The
    [validate] callbacks handed to [prompter.text] are left to the prompter,
    which may answer anything here. *)
Inductive Question : Type := UseEnvCredentials | KeepCurrentConfig | EnableImageSupport.

Inductive Field : Type := AppIdField | ClientSecretField | ImageServerUrlField.

Inductive Notice : Type := SetupHelp | ImageSupportNotice.

(** [label: id === DEFAULT_ACCOUNT_ID ? <default account> : id] *)
Inductive Label : Type :=
| DefaultAccountLabel
| IdLabel (id : string).

Record SelectOption : Type := mkOption {
  option_value : string;
  option_label : Label
}.

Inductive Prompt : Type :=
| Select (options : list SelectOption) (initialValue : string)
| Note (n : Notice)
| Confirm (q : Question) (initialValue : bool)
| Text (f : Field) (initialValue : option string).

(** The prompter of the host over its world [P] (the terminal, the user):
    every method may answer anything, and may throw (a cancelled wizard). *)
Record Prompter (P : Type) : Type := mkPrompter {
  prompter_select : list SelectOption -> string -> P -> Completion string * P;
  prompter_note : Notice -> P -> Completion unit * P;
  prompter_confirm : Question -> bool -> P -> Completion bool * P;
  prompter_text : Field -> option string -> P -> Completion string * P
}.

Arguments prompter_select {P} _.
Arguments prompter_note {P} _.
Arguments prompter_confirm {P} _.
Arguments prompter_text {P} _.

(** The wizard as a computation over the prompter's world, with the prompts
    it showed, in order. *)
Definition M (P A : Type) : Type := P -> Completion A * P * list Prompt.

Definition ret {P A} (a : A) : M P A := fun p => (Normal a, p, []).

Definition bind {P A B} (m : M P A) (k : A -> M P B) : M P B :=
  fun p =>
    match m p with
    | (Normal a, p1, t1) =>
        match k a p1 with
        | (r, p2, t2) => (r, p2, (t1 ++ t2)%list)
        end
    | (Throw e, p1, t1) => (Throw e, p1, t1)
    end.

(** [await prompter.method(...)] *)
Definition ask {P A} (shown : Prompt) (method : P -> Completion A * P) : M P A :=
  fun p =>
    match method p with
    | (r, p1) => (r, p1, [shown])
    end.

(** The variables of the environment the wizard reads. *)
Record Env : Type := mkEnv {
  QQBOT_APP_ID : option string;
  QQBOT_CLIENT_SECRET : option string;
  QQBOT_IMAGE_SERVER_BASE_URL : option string
}.

(** What the wizard reads of a resolved account: the effective credentials
    and, under [config], the ones written in the configuration. *)
Record Resolved : Type := mkResolved {
  resolved_account : ResolvedQQBotAccount;
  resolved_config : AccountEntry
}.

(** [(id) => ({ value: id, label: id === DEFAULT_ACCOUNT_ID ? ... : id })] *)
Definition account_option (id : string) : SelectOption :=
  mkOption id (if String.eqb id DEFAULT_ACCOUNT_ID then DefaultAccountLabel else IdLabel id).

(** [x || undefined] *)
Definition or_undefined (x : option string) : option string :=
  if Js.truthy x then x else None.

(** [a || b] *)
Definition or_else (a b : option string) : option string :=
  if Js.truthy a then a else b.

Section Configure.

Context {Json P : Type}.

(** [listQQBotAccountIds] and [resolveQQBotAccount] of [config.ts], which is
    not part of the sources; [String.prototype.trim]; the environment. *)
Variable listQQBotAccountIds : @MoltbotConfig Json -> list string.
Variable resolveQQBotAccount : @MoltbotConfig Json -> string -> Resolved.
Variable trim : string -> string.
Variable env : Env.

Variable prompter : Prompter P.

(** [resolveDefaultQQBotAccountId(cfg)]: [ids[0] ?? DEFAULT_ACCOUNT_ID] *)
Definition resolveDefaultQQBotAccountId (cfg : @MoltbotConfig Json) : string :=
  match listQQBotAccountIds cfg with
  | id :: _ => id
  | [] => DEFAULT_ACCOUNT_ID
  end.

Definition select (options : list SelectOption) (initialValue : string) : M P string :=
  ask (Select options initialValue) (prompter_select prompter options initialValue).

Definition note (n : Notice) : M P unit :=
  ask (Note n) (prompter_note prompter n).

Definition confirm (q : Question) (initialValue : bool) : M P bool :=
  ask (Confirm q initialValue) (prompter_confirm prompter q initialValue).

(** [String(await prompter.text({..., initialValue})).trim()] *)
Definition text (f : Field) (initialValue : option string) : M P string :=
  bind (ask (Text f initialValue) (prompter_text prompter f initialValue))
       (fun value => ret (trim value)).

(** The two questions for the credentials, as they stand three times in
    [configure]: the app id with the resolved one as initial value, then the
    secret without one. *)
Definition enter_credentials (resolved : Resolved) : M P (option string * option string) :=
  bind (text AppIdField (or_undefined (acct_appId (resolved_account resolved))))
       (fun appId =>
  bind (text ClientSecretField None)
       (fun clientSecret => ret (Some appId, Some clientSecret))).

(** [configure(ctx)], with [accountOverrides.qqbot] and
    [shouldPromptAccountIds] of the context. *)
Definition configure (cfg : @MoltbotConfig Json) (override : option string)
    (shouldPromptAccountIds : bool) : M P (@MoltbotConfig Json * string) :=
  let qqbotOverride := option_map trim override in
  let defaultAccountId := resolveDefaultQQBotAccountId cfg in
  let accountId :=
    match qqbotOverride with
    | Some o => o
    | None => defaultAccountId
    end in
  bind
    (if shouldPromptAccountIds && negb (Js.truthy qqbotOverride) then
       let existingIds := listQQBotAccountIds cfg in
       if 1 <? List.length existingIds then
         select (map account_option existingIds) accountId
       else ret accountId
     else ret accountId)
    (fun accountId =>
  let next := cfg in
  let resolvedAccount := resolveQQBotAccount next accountId in
  let accountConfigured :=
    Js.truthy (acct_appId (resolved_account resolvedAccount))
    && Js.truthy (acct_clientSecret (resolved_account resolvedAccount)) in
  let allowEnv := String.eqb accountId DEFAULT_ACCOUNT_ID in
  let envAppId := option_map trim (QQBOT_APP_ID env) in
  let envSecret := option_map trim (QQBOT_CLIENT_SECRET env) in
  let canUseEnv := allowEnv && (Js.truthy envAppId && Js.truthy envSecret) in
  let hasConfigCredentials :=
    Js.truthy (entry_appId (resolved_config resolvedAccount))
    && Js.truthy (entry_clientSecret (resolved_config resolvedAccount)) in
  bind (if negb accountConfigured then note SetupHelp else ret tt)
    (fun _ =>
  bind
    (if canUseEnv && negb hasConfigCredentials then
       bind (confirm UseEnvCredentials true)
         (fun keepEnv =>
            if keepEnv then ret (enable next, (None, None))
            else bind (enter_credentials resolvedAccount)
                   (fun entered => ret (next, entered)))
     else if hasConfigCredentials then
       bind (confirm KeepCurrentConfig true)
         (fun keep =>
            if negb keep then
              bind (enter_credentials resolvedAccount)
                (fun entered => ret (next, entered))
            else ret (next, (None, None)))
     else
       bind (enter_credentials resolvedAccount)
         (fun entered => ret (next, entered)))
    (fun step =>
  let next := fst step in
  let appId := fst (snd step) in
  let clientSecret := snd (snd step) in
  let existingImageUrl :=
    or_else (qq_imageServerBaseUrl (qqbot_block next))
            (QQBOT_IMAGE_SERVER_BASE_URL env) in
  bind (confirm EnableImageSupport (Js.truthy existingImageUrl))
    (fun wantImageSupport =>
  bind
    (if wantImageSupport then
       bind (text ImageServerUrlField (or_undefined existingImageUrl))
         (fun imageServerBaseUrl =>
       bind (note ImageSupportNotice)
         (fun _ => ret (Some imageServerBaseUrl)))
     else ret None)
    (fun imageServerBaseUrl =>
  ret (apply_entered next accountId appId clientSecret imageServerBaseUrl,
       accountId)))))).

End Configure.

End Wizard.

(** *** Vocabulary of the wizard's properties *)


Definition is_text (shown : Wizard.Prompt) : bool :=
  match shown with
  | Wizard.Text _ _ => true
  | _ => false
  end.

Definition asks_app_id (shown : Wizard.Prompt) : bool :=
  match shown with
  | Wizard.Text Wizard.AppIdField _ => true
  | _ => false
  end.

Definition asks_secret (shown : Wizard.Prompt) : bool :=
  match shown with
  | Wizard.Text Wizard.ClientSecretField _ => true
  | _ => false
  end.

(** The second configuration has the top-level keys of the first and, if
    the first has channels, their other channels. *)
Definition same_surroundings {Json : Type} (a b : @Onboarding.MoltbotConfig Json) : Prop :=
  Onboarding.cfg_rest b = Onboarding.cfg_rest a
  /\ forall ch, Onboarding.cfg_channels a = Some ch ->
       exists ch', Onboarding.cfg_channels b = Some ch'
                   /\ Onboarding.ch_rest ch' = Onboarding.ch_rest ch.

(** A configuration for the worked examples: credentials at the root, one
    more account, one other channel. *)
Definition sample_config : @Onboarding.MoltbotConfig string :=
  Onboarding.mkConfig
    (Some (Onboarding.mkChannels
             (Some (Onboarding.mkQQBot (Some false) (Some "1") (Some "old") None
                      (Some "bot") None
                      (Some (fun id =>
                               if String.eqb id "work"
                               then Some (Onboarding.mkEntry None None None
                                            (Some "/run/secret") (Some "work bot") None)
                               else None))))
             (fun key => if String.eqb key "telegram" then Some "token" else None)))
    (fun key => if String.eqb key "logging" then Some "debug" else None).

(** A prompter for the worked examples: it picks the account ["work"],
    declines what it is asked to confirm and types the same credentials; its
    world counts the prompts. *)
Definition typing_prompter : Wizard.Prompter nat :=
  Wizard.mkPrompter nat
    (fun _ _ n => (Normal "work", S n))
    (fun _ n => (Normal tt, S n))
    (fun _ _ n => (Normal false, S n))
    (fun f _ n =>
       (Normal match f with
               | Wizard.AppIdField => "102146862"
               | Wizard.ClientSecretField => "secret"
               | Wizard.ImageServerUrlField => "http://192.0.2.1:18765"
               end,
        S n)).

(** A prompter that confirms everything and types nothing useful. *)
Definition confirming_prompter : Wizard.Prompter nat :=
  Wizard.mkPrompter nat
    (fun _ initialValue n => (Normal initialValue, S n))
    (fun _ n => (Normal tt, S n))
    (fun q _ n =>
       (Normal match q with
               | Wizard.EnableImageSupport => false
               | _ => true
               end,
        S n))
    (fun _ _ n => (Normal "", S n)).

(** A resolution for the worked examples: the root credentials of the
    sample for every account. *)
Definition sample_resolved : Wizard.Resolved :=
  Wizard.mkResolved
    (mkAccount "default" (Some "bot") true (Some "1") (Some "old") inline None)
    (Onboarding.mkEntry None (Some "1") (Some "old") None (Some "bot") None).

(** A client whose token issuance throws [new Error("")]. *)
Definition mute_client : PlatformClient nat :=
  mkClient nat
    (fun _ _ w => (Throw (ThrownError ""), S w))
    (fun _ _ _ _ w => (Normal (mkResponse "m" (TsNumber 0)), S w))
    (fun _ _ _ _ w => (Normal (mkResponse "m" (TsNumber 0)), S w))
    (fun _ _ _ _ w => (Normal (mkResponse "m" (TsNumber 0)), S w))
    (fun _ _ _ w => (Normal (mkResponse "m" (TsNumber 0)), S w))
    (fun _ _ _ w => (Normal (mkResponse "m" (TsNumber 0)), S w)).

(** ** Vocabulary of the further properties *)

(** The number of colons of a string. *)
Fixpoint colons (s : string) : nat :=
  match s with
  | EmptyString => 0
  | String c s' => (if Ascii.eqb c ":" then 1 else 0) + colons s'
  end.

(** A send operation, called with this token, recipient and text. *)
Definition is_send (accessToken id content : string) (call : ApiCall) : Prop :=
  match call with
  | GetAccessToken _ _ => False
  | SendC2CMessage t i c _
  | SendGroupMessage t i c _
  | SendChannelMessage t i c _
  | SendProactiveC2CMessage t i c
  | SendProactiveGroupMessage t i c => t = accessToken /\ i = id /\ c = content
  end.

(** What the client answers to a send: the operation the call names, applied
    to the call's arguments. *)
Definition send_answer {W : Type} (client : PlatformClient W) (call : ApiCall) (w : W)
  : option (Completion MessageResponse * W) :=
  match call with
  | GetAccessToken _ _ => None
  | SendC2CMessage t i c m => Some (api_sendC2CMessage client t i c m w)
  | SendGroupMessage t i c m => Some (api_sendGroupMessage client t i c m w)
  | SendChannelMessage t i c m => Some (api_sendChannelMessage client t i c m w)
  | SendProactiveC2CMessage t i c => Some (api_sendProactiveC2CMessage client t i c w)
  | SendProactiveGroupMessage t i c => Some (api_sendProactiveGroupMessage client t i c w)
  end.

(** The [msgId] a call carries. *)
Definition msgId_of (call : ApiCall) : option string :=
  match call with
  | SendC2CMessage _ _ _ m
  | SendGroupMessage _ _ _ m
  | SendChannelMessage _ _ _ m => m
  | _ => None
  end.

(** A passive operation that exists in a proactive form as well. *)
Definition is_passive_only (call : ApiCall) : bool :=
  match call with
  | SendC2CMessage _ _ _ _ | SendGroupMessage _ _ _ _ => true
  | _ => false
  end.

Definition is_ready (cb : GatewayCallback) : bool :=
  match cb with
  | Ready _ => true
  | Error _ => false
  end.

(** * Properties *)

(** ** The target grammar, in the design document's words *)

Module Grammar.

Definition lower (c : ascii) : ascii :=
  let n := nat_of_ascii c in
  if (65 <=? n) && (n <=? 90) then ascii_of_nat (n + 32) else c.

Fixpoint lowercase (s : string) : string :=
  match s with
  | EmptyString => EmptyString
  | String c s' => String (lower c) (lowercase s')
  end.

(** The optional channel-name prefix: nothing, or [qqbot:] in any casing. *)
Definition channel_prefix (p : string) : Prop :=
  p = "" \/ lowercase p = "qqbot:".

Definition hex_digit (c : ascii) : Prop :=
  In c (list_ascii_of_string "0123456789abcdefABCDEF").

Fixpoint every (P : ascii -> Prop) (s : string) : Prop :=
  match s with
  | EmptyString => True
  | String c s' => P c /\ every P s'
  end.

(** A bare 32-character hexadecimal identifier. *)
Definition hex32 (s : string) : Prop :=
  String.length s = 32 /\ every hex_digit s.

(** The address shapes with a possibly empty [<id>]. *)
Definition shaped (s : string) : Prop :=
  (exists id, s = "c2c:" ++ id) \/ (exists id, s = "group:" ++ id)
  \/ (exists id, s = "channel:" ++ id) \/ hex32 s.

(** [<tag><id>] with a non-empty [<id>]. *)
Definition addressed (tag s : string) : bool :=
  Js.startsWith s tag && (String.length tag <? String.length s).

(** The accepted grammar of section 4.3, read with a non-empty [<id>] (the
    design document counts ["c2c:"] among the strings outside of it). *)
Definition accepted (s : string) : bool :=
  addressed "c2c:" s || addressed "group:" s || addressed "channel:" s
  || Js.test_hex32 s.

End Grammar.

(** [parseTarget] has no failing path: a raw string is in its acceptance
    set when it returns a target for it. *)
Definition parse_accepts (raw : string) : Prop :=
  exists t, parseTarget raw = t.

(** ** Two platform clients for the worked examples

    The world counts the calls that were answered. *)

Definition answering_client : PlatformClient nat :=
  mkClient nat
    (fun _ _ w => (Normal "token", S w))
    (fun _ _ _ _ w => (Normal (mkResponse "m-c2c" (TsNumber 1700000000)), S w))
    (fun _ _ _ _ w => (Normal (mkResponse "m-group" (TsNumber 1700000000)), S w))
    (fun _ _ _ _ w => (Normal (mkResponse "m-channel" (TsString "2024-01-01T00:00:00Z")), S w))
    (fun _ _ _ w => (Normal (mkResponse "m-proactive-c2c" (TsNumber 1700000000)), S w))
    (fun _ _ _ w => (Normal (mkResponse "m-proactive-group" (TsNumber 1700000000)), S w)).

(** Tokens are issued, every send is refused. *)
Definition refusing_client : PlatformClient nat :=
  mkClient nat
    (fun _ _ w => (Normal "token", S w))
    (fun _ _ _ _ w => (Throw (ThrownError "send refused"), S w))
    (fun _ _ _ _ w => (Throw (ThrownError "send refused"), S w))
    (fun _ _ _ _ w => (Throw (ThrownOther "503"), S w))
    (fun _ _ _ w => (Throw (ThrownError "quota exceeded"), S w))
    (fun _ _ _ w => (Throw (ThrownError "quota exceeded"), S w)).

Definition configured_account : ResolvedQQBotAccount :=
  mkAccount "default" (Some "bot") true (Some "102146862") (Some "secret") inline None.

Definition unconfigured_account : ResolvedQQBotAccount :=
  mkAccount "default" None true None None none None.

(** The remote calls a run made, in order. *)
Definition calls_made {W A : Type} (r : Completion A * W * list ApiEvent) : list ApiCall :=
  map event_call (snd r).

(** A call that threw ends the dispatch with that exception's message. *)
Definition reports (result : OutboundResult) (calls : list ApiEvent) : Prop :=
  forall call e, In (mkEvent call (Some e)) calls ->
    res_error result = Some (message_of e) /\ res_messageId result = None.

(** ** Characters *)

Ltac each_ascii c :=
  destruct c as [[|] [|] [|] [|] [|] [|] [|] [|]].

Lemma canonicalize_lower (c : ascii) :
  Js.canonicalize (Grammar.lower c) = Js.canonicalize c.
Proof. each_ascii c; reflexivity. Qed.

Lemma hex_class_spec (c : ascii) :
  Js.hex_class c = true <-> Grammar.hex_digit c.
Proof.
  unfold Grammar.hex_digit; split.
  - each_ascii c; cbv; intros H; try discriminate H; tauto.
  - cbn [list_ascii_of_string In]. intros H.
    repeat (destruct H as [<- | H]; [reflexivity |]). destruct H.
Qed.

Lemma not_q_of_hex (c : ascii) :
  Js.hex_class c = true ->
  Ascii.eqb (Js.canonicalize "q") (Js.canonicalize c) = false.
Proof. each_ascii c; cbv; intros H; try discriminate H; reflexivity. Qed.

(** ** Strings *)

Lemma all_chars_every (s : string) :
  Js.all_chars Js.hex_class s = true <-> Grammar.every Grammar.hex_digit s.
Proof.
  induction s as [|c s IH]; simpl.
  - tauto.
  - rewrite andb_true_iff, hex_class_spec, IH. tauto.
Qed.

Lemma test_hex32_spec (s : string) :
  Js.test_hex32 s = true <-> Grammar.hex32 s.
Proof.
  unfold Js.test_hex32, Grammar.hex32.
  rewrite andb_true_iff, Nat.eqb_eq, all_chars_every. tauto.
Qed.

Lemma startsWith_app (p s : string) : Js.startsWith (p ++ s) p = true.
Proof.
  unfold Js.startsWith. induction p as [|c p IH]; simpl.
  - destruct s; reflexivity.
  - destruct (ascii_dec c c) as [_|N]; [exact IH | now elim N].
Qed.

Lemma slice_app (p s : string) : Js.slice (p ++ s) (String.length p) = s.
Proof. induction p as [|c p IH]; simpl; [reflexivity | exact IH]. Qed.

Lemma startsWith_inv (p s : string) :
  Js.startsWith s p = true -> s = p ++ Js.slice s (String.length p).
Proof.
  unfold Js.startsWith. revert s. induction p as [|c p IH]; intros s H; simpl in *.
  - reflexivity.
  - destruct s as [|d s]; simpl in H; [discriminate H |].
    destruct (ascii_dec c d) as [->|_]; [| discriminate H].
    f_equal. now apply IH.
Qed.

Lemma startsWith_iff (p s : string) :
  Js.startsWith s p = true <-> exists r, s = p ++ r.
Proof.
  split.
  - intros H. eexists. now apply startsWith_inv.
  - intros [r ->]. apply startsWith_app.
Qed.

(** Any casing of the pattern is matched and removed. *)
Lemma match_ci_casing (pat p rest : string) :
  Grammar.lowercase p = Grammar.lowercase pat ->
  Js.match_ci pat (p ++ rest) = Some rest.
Proof.
  revert p. induction pat as [|a pat IH]; intros [|c p] H; simpl in *;
    try discriminate H.
  - reflexivity.
  - injection H as Hc Hp.
    rewrite <- (canonicalize_lower a), <- (canonicalize_lower c), Hc, Ascii.eqb_refl.
    now apply IH.
Qed.

Lemma strip_qqbot_prefixed (p rest : string) :
  Grammar.lowercase p = "qqbot:" -> strip_qqbot (p ++ rest) = rest.
Proof.
  intros H. unfold strip_qqbot. now rewrite (match_ci_casing "qqbot:" p rest).
Qed.

(** A string that does not begin with [q] or [Q] is left alone. *)
Lemma strip_qqbot_other (c : ascii) (s : string) :
  Ascii.eqb (Js.canonicalize "q") (Js.canonicalize c) = false ->
  strip_qqbot (String c s) = String c s.
Proof. intros H. unfold strip_qqbot. cbn [Js.match_ci]. now rewrite H. Qed.

Lemma strip_qqbot_hex (h : string) :
  Js.all_chars Js.hex_class h = true -> strip_qqbot h = h.
Proof.
  destruct h as [|c h]; [reflexivity |]. simpl. intros H.
  apply andb_true_iff in H as [Hc _].
  apply strip_qqbot_other, not_q_of_hex, Hc.
Qed.

(** ** [parseTarget] on its own output shapes *)

Lemma parseTarget_tagged (tag id : string) (ty : TargetType) :
  In (tag, ty) [("c2c:", c2c); ("group:", group); ("channel:", channel)] ->
  strip_qqbot (tag ++ id) = tag ++ id ->
  parseTarget (tag ++ id) = mkTarget ty id.
Proof.
  intros Hin Hs. unfold parseTarget. rewrite Hs. simpl in Hin.
  destruct Hin as [E | [E | [E | []]]]; injection E as <- <-;
    destruct id; reflexivity.
Qed.

Lemma parseTarget_strip (a b : string) :
  strip_qqbot a = strip_qqbot b -> parseTarget a = parseTarget b.
Proof. intros H. unfold parseTarget. now rewrite H. Qed.

Lemma hex_not_tagged (h tag : string) :
  In tag ["c2c:"; "group:"; "channel:"] ->
  Js.all_chars Js.hex_class h = true ->
  Js.startsWith h tag = false.
Proof.
  intros Hin Hh. destruct (Js.startsWith h tag) eqn:E; [| reflexivity].
  apply startsWith_iff in E as [r ->]. simpl in Hin.
  destruct Hin as [<- | [<- | [<- | []]]]; simpl in Hh; discriminate Hh.
Qed.

Lemma parseTarget_hex (h : string) :
  Js.all_chars Js.hex_class h = true -> parseTarget h = mkTarget c2c h.
Proof.
  intros Hh. unfold parseTarget. rewrite (strip_qqbot_hex h Hh).
  rewrite !hex_not_tagged; simpl; auto.
Qed.

(** The fallback: whatever carries none of the three tags is a direct-message
    id, after the channel-name prefix is removed. *)
Lemma parseTarget_untagged (raw : string) :
  Js.startsWith (strip_qqbot raw) "c2c:" = false ->
  Js.startsWith (strip_qqbot raw) "group:" = false ->
  Js.startsWith (strip_qqbot raw) "channel:" = false ->
  parseTarget raw = mkTarget c2c (strip_qqbot raw).
Proof. intros H1 H2 H3. unfold parseTarget. now rewrite H1, H2, H3. Qed.

Lemma looksLikeId_false (raw : string) :
  looksLikeId raw = false ->
  Js.startsWith (strip_qqbot raw) "c2c:" = false
  /\ Js.startsWith (strip_qqbot raw) "group:" = false
  /\ Js.startsWith (strip_qqbot raw) "channel:" = false
  /\ Js.test_hex32 (strip_qqbot raw) = false.
Proof.
  unfold looksLikeId.
  destruct (Js.startsWith (strip_qqbot raw) "c2c:"),
           (Js.startsWith (strip_qqbot raw) "group:"),
           (Js.startsWith (strip_qqbot raw) "channel:"),
           (Js.test_hex32 (strip_qqbot raw)); simpl; intros H;
    try discriminate H; auto.
Qed.

Lemma looksLikeId_shaped (raw : string) :
  looksLikeId raw = true <-> Grammar.shaped (strip_qqbot raw).
Proof.
  unfold looksLikeId, Grammar.shaped.
  rewrite <- !startsWith_iff, <- test_hex32_spec.
  destruct (Js.startsWith (strip_qqbot raw) "c2c:"),
           (Js.startsWith (strip_qqbot raw) "group:"),
           (Js.startsWith (strip_qqbot raw) "channel:"),
           (Js.test_hex32 (strip_qqbot raw)); simpl; intuition congruence.
Qed.

(** ** C6: the four address shapes round-trip *)

(** C6.  For every id, each of the shapes [c2c:<id>], [group:<id>],
    [channel:<id>] and a bare 32-digit hexadecimal id, with or without the
    prefix [qqbot:] in any casing, is parsed to the surface its tag names
    (direct message for [c2c:] and for the bare id) and to exactly the
    embedded id. *)
Theorem parseTarget_round_trip (p id h : string) :
  Grammar.channel_prefix p ->
  Grammar.hex32 h ->
  parseTarget (p ++ "c2c:" ++ id) = mkTarget c2c id
  /\ parseTarget (p ++ "group:" ++ id) = mkTarget group id
  /\ parseTarget (p ++ "channel:" ++ id) = mkTarget channel id
  /\ parseTarget (p ++ h) = mkTarget c2c h.
Proof.
  intros Hp [_ Hh]. apply all_chars_every in Hh.
  assert (T : forall tag ty,
             In (tag, ty) [("c2c:", c2c); ("group:", group); ("channel:", channel)] ->
             parseTarget (tag ++ id) = mkTarget ty id).
  { intros tag ty Hin. apply parseTarget_tagged; [exact Hin |].
    simpl in Hin. destruct Hin as [E | [E | [E | []]]]; injection E as <- <-;
      apply strip_qqbot_other; reflexivity. }
  assert (S : forall s, strip_qqbot s = s -> parseTarget (p ++ s) = parseTarget s).
  { intros s Hs. apply parseTarget_strip. rewrite Hs.
    destruct Hp as [-> | Hp]; [exact Hs | now apply strip_qqbot_prefixed]. }
  repeat split.
  - rewrite S; [apply T; simpl; auto | apply strip_qqbot_other; reflexivity].
  - rewrite S; [apply T; simpl; auto | apply strip_qqbot_other; reflexivity].
  - rewrite S; [apply T; simpl; auto | apply strip_qqbot_other; reflexivity].
  - rewrite S; [now apply parseTarget_hex | now apply strip_qqbot_hex].
Qed.

Lemma parseTarget_round_trip_witness :
  Grammar.channel_prefix "QQBot:"
  /\ Grammar.hex32 "0123456789abcdefABCDEF0123456789"
  /\ parseTarget ("QQBot:" ++ "c2c:" ++ "ABCD1234") = mkTarget c2c "ABCD1234"
  /\ parseTarget ("QQBot:" ++ "group:" ++ "ABCD1234") = mkTarget group "ABCD1234"
  /\ parseTarget ("QQBot:" ++ "channel:" ++ "ABCD1234") = mkTarget channel "ABCD1234"
  /\ parseTarget ("QQBot:" ++ "0123456789abcdefABCDEF0123456789")
     = mkTarget c2c "0123456789abcdefABCDEF0123456789".
Proof.
  assert (P : Grammar.channel_prefix "QQBot:") by (right; reflexivity).
  assert (H : Grammar.hex32 "0123456789abcdefABCDEF0123456789")
    by (apply test_hex32_spec; reflexivity).
  split; [exact P |]. split; [exact H |].
  exact (parseTarget_round_trip "QQBot:" "ABCD1234" _ P H).
Defined.

(** ** C4: [looksLikeId] against the acceptance set of [parseTarget] *)

(** C4, as stated, fails: ["foo"] is accepted by [parseTarget] (the
    direct-message fallback) while [looksLikeId] rejects it. *)
Lemma looksLikeId_rejects_accepted_foo :
  ~ (looksLikeId "foo" = true <-> parse_accepts "foo").
Proof.
  intros [_ H].
  assert (A : parse_accepts "foo") by (exists (mkTarget c2c "foo"); reflexivity).
  specialize (H A). discriminate H.
Qed.

(** C4, amended.  [parseTarget] accepts every raw string; [looksLikeId] holds
    exactly of the strings that, behind the optional prefix, begin with
    [c2c:], [group:] or [channel:] or are 32 hexadecimal digits; on every
    string [looksLikeId] rejects, [parseTarget] falls back to the direct
    message surface with the prefix-stripped string as id. *)
Theorem looksLikeId_recognises_shapes (raw : string) :
  parse_accepts raw
  /\ (looksLikeId raw = true <-> Grammar.shaped (strip_qqbot raw))
  /\ (looksLikeId raw = false -> parseTarget raw = mkTarget c2c (strip_qqbot raw)).
Proof.
  split; [now exists (parseTarget raw) |].
  split; [apply looksLikeId_shaped |].
  intros H. apply looksLikeId_false in H as (H1 & H2 & H3 & _).
  now apply parseTarget_untagged.
Qed.

Lemma looksLikeId_recognises_shapes_witness :
  looksLikeId "qqbot:foo" = false
  /\ parseTarget "qqbot:foo" = mkTarget c2c "foo".
Proof.
  split; [reflexivity |].
  exact (proj2 (proj2 (looksLikeId_recognises_shapes "qqbot:foo")) eq_refl).
Defined.

(** ** C5: strings outside the grammar *)

(** C5, as stated, fails: ["group:"] is outside the grammar (its [<id>] is
    empty, like that of ["c2c:"]), and [parseTarget] returns the group
    surface for it. *)
Lemma parseTarget_group_without_id :
  ~ (Grammar.accepted (strip_qqbot "group:") = false ->
     target_type (parseTarget "group:") = c2c).
Proof. intros H. specialize (H eq_refl). discriminate H. Qed.

(** C5, amended.  [parseTarget] never fails.  A raw string that, behind the
    optional prefix, begins with neither [group:] nor [channel:] is parsed to
    the direct-message surface; if it does not begin with [c2c:] either, the
    id is the prefix-stripped string. *)
Theorem parseTarget_fallback (raw : string) :
  Js.startsWith (strip_qqbot raw) "group:" = false ->
  Js.startsWith (strip_qqbot raw) "channel:" = false ->
  parse_accepts raw
  /\ target_type (parseTarget raw) = c2c
  /\ (Js.startsWith (strip_qqbot raw) "c2c:" = false ->
      target_id (parseTarget raw) = strip_qqbot raw).
Proof.
  intros Hg Hc. split; [now exists (parseTarget raw) |].
  unfold parseTarget. rewrite Hg, Hc.
  destruct (Js.startsWith (strip_qqbot raw) "c2c:"); simpl; split; auto; discriminate.
Qed.

Lemma parseTarget_fallback_witness :
  (parseTarget "foo" = mkTarget c2c "foo"
   /\ parseTarget "xyz:abc" = mkTarget c2c "xyz:abc")
  /\ target_type (parseTarget "c2c:") = c2c
  /\ target_id (parseTarget "QQBOT:xyz:abc") = "xyz:abc".
Proof.
  split; [split; reflexivity |].
  split.
  - exact (proj1 (proj2 (parseTarget_fallback "c2c:" eq_refl eq_refl))).
  - exact (proj2 (proj2 (parseTarget_fallback "QQBOT:xyz:abc" eq_refl eq_refl)) eq_refl).
Defined.

(** ** Outbound dispatch *)

Ltac run_async :=
  unfold sendText, sendProactiveMessage, Async.try_catch, Async.bind, Async.ret,
    getAccessToken, sendC2CMessage, sendGroupMessage, sendChannelMessage,
    sendProactiveC2CMessage, sendProactiveGroupMessage, Async.await.

(** Case analysis on an innermost scrutinee of the goal. *)
Ltac split_match :=
  match goal with
  | |- context [match ?x with _ => _ end] =>
      lazymatch x with
      | context [match _ with _ => _ end] => fail
      | _ => destruct x eqn:?
      end
  end.

Lemma credentials_Some (account : ResolvedQQBotAccount) (appId clientSecret : string) :
  credentials account = Some (appId, clientSecret) <->
  acct_appId account = Some appId /\ appId <> ""
  /\ acct_clientSecret account = Some clientSecret /\ clientSecret <> "".
Proof.
  unfold credentials, Js.truthy.
  destruct (acct_appId account) as [a|], (acct_clientSecret account) as [s|]; simpl;
    repeat match goal with
           | |- context [String.eqb ?x ""] => destruct (String.eqb_spec x "")
           end; simpl; split; intros H; try discriminate H;
    try (destruct H as (Ha & Na & Hs & Ns);
         try discriminate Ha; try discriminate Hs;
         injection Ha as <-; injection Hs as <-; congruence).
  injection H as <- <-. auto.
Qed.

Lemma credentials_None (account : ResolvedQQBotAccount) :
  credentials account = None <->
  Js.truthy (acct_appId account) = false \/ Js.truthy (acct_clientSecret account) = false.
Proof.
  unfold credentials.
  destruct (acct_appId account) as [a|], (acct_clientSecret account) as [s|]; simpl;
    try (destruct (String.eqb a "")); try (destruct (String.eqb s "")); simpl;
    intuition discriminate.
Qed.

Lemma reply_marker_None (replyToId : option string) :
  reply_marker replyToId = None <-> Js.truthy replyToId = false.
Proof.
  unfold reply_marker. destruct replyToId as [r|]; simpl; [| tauto].
  destruct (String.eqb r ""); simpl; intuition discriminate.
Qed.

Lemma reply_marker_Some (replyToId : option string) (r : string) :
  reply_marker replyToId = Some r <-> replyToId = Some r /\ r <> "".
Proof.
  unfold reply_marker. destruct replyToId as [r'|]; simpl.
  - destruct (String.eqb_spec r' ""); simpl; split.
    + discriminate.
    + intros [H N]. injection H as ->. contradiction.
    + intros H. injection H as ->. auto.
    + intros [H _]. exact H.
  - split; [discriminate | intros [H _]; discriminate].
Qed.

Section OutboundProperties.

Context {W : Type} (client : PlatformClient W).

Lemma reports_end (result : OutboundResult) (c1 c2 : ApiCall) (e : Thrown) :
  res_error result = Some (message_of e) -> res_messageId result = None ->
  reports result [mkEvent c1 None; mkEvent c2 (Some e)].
Proof.
  intros He Hm call e' [H | [H | []]]; [discriminate H |].
  injection H as _ <-. auto.
Qed.

Lemma reports_quiet (result : OutboundResult) (calls : list ApiEvent) :
  Forall (fun ev => event_thrown ev = None) calls -> reports result calls.
Proof.
  intros Hq call e Hin. rewrite Forall_forall in Hq.
  specialize (Hq _ Hin). discriminate Hq.
Qed.

(** What a run of [sendText] looks like, whatever the client does: it
    completes normally, and either nothing was called (not configured), or
    the token call threw, or the token call and one send were made. *)
Lemma sendText_runs (ctx : OutboundContext) (w : W) :
  exists result w' calls,
    sendText client ctx w = (Normal result, w', calls)
    /\ reports result calls
    /\ ((res_messageId result <> None /\ res_error result = None)
        \/ (res_messageId result = None /\ res_error result <> None)).
Proof.
  run_async. repeat split_match; subst;
    repeat match goal with
           | H : (_, _) = (_, _) |- _ => injection H as <-; subst
           | H : (_, _, _) = (_, _, _) |- _ => injection H as <- <- <-
           | H : Normal _ = Normal _ |- _ => injection H as <-
           end.
  all: try discriminate.
  all: do 3 eexists; (split; [reflexivity |]); simpl.
  all: split;
    [ first [ solve [apply reports_quiet; repeat constructor]
            | solve [apply reports_end; reflexivity]
            | intros call e' [H | []]; injection H as _ <-; auto ]
    | first [ left; split; [discriminate | reflexivity]
            | right; split; [reflexivity | discriminate] ] ].
Qed.


(** C7.  Every outcome [sendText] returns carries a [messageId] or an
    [error], and never both. *)
Theorem sendText_outcome_exclusive (ctx : OutboundContext) (w : W) :
  exists result w' calls,
    sendText client ctx w = (Normal result, w', calls)
    /\ ((res_messageId result <> None /\ res_error result = None)
        \/ (res_messageId result = None /\ res_error result <> None)).
Proof.
  destruct (sendText_runs ctx w) as (result & w' & calls & Hrun & _ & Hx).
  now exists result, w', calls.
Qed.

Lemma sendText_unconfigured (ctx : OutboundContext) (w : W) :
  credentials (ctx_account ctx) = None ->
  sendText client ctx w = (Normal not_configured, w, []).
Proof. intros H. unfold sendText. now rewrite H. Qed.

(** C3, amended.  For an account whose [appId] or [clientSecret] is absent,
    [sendText] returns the outcome with
    [error = "QQBot not configured (missing appId or clientSecret)"] and no
    [messageId], makes no remote call and leaves the world as it was. *)
Theorem sendText_not_configured (ctx : OutboundContext) (w : W) :
  acct_appId (ctx_account ctx) = None \/ acct_clientSecret (ctx_account ctx) = None ->
  sendText client ctx w =
    (Normal (mkResult "qqbot" None None
               (Some "QQBot not configured (missing appId or clientSecret)")),
     w, []).
Proof.
  intros H. apply sendText_unconfigured, credentials_None.
  destruct H as [-> | ->]; auto.
Qed.

(** An empty credential counts as a missing one. *)
Lemma sendText_empty_credentials (ctx : OutboundContext) (w : W) :
  acct_appId (ctx_account ctx) = Some "" \/ acct_clientSecret (ctx_account ctx) = Some "" ->
  sendText client ctx w = (Normal not_configured, w, []).
Proof.
  intros H. apply sendText_unconfigured, credentials_None.
  destruct H as [-> | ->]; auto.
Qed.

(** C1, amended.  For a configured account whose token is issued:
    when [replyToId] is absent or empty, [sendText] calls the proactive
    operation of the surface for direct messages and groups and the plain
    [sendChannelMessage] (without [msgId]) for channels; when [replyToId] is
    a non-empty string, it calls the passive operation of the surface and
    passes [replyToId] on.  Nothing else is called but the token issuance
    before it. *)
Theorem sendText_dispatch (ctx : OutboundContext) (w : W)
    (appId clientSecret accessToken : string) (w1 : W) :
  acct_appId (ctx_account ctx) = Some appId -> appId <> "" ->
  acct_clientSecret (ctx_account ctx) = Some clientSecret -> clientSecret <> "" ->
  api_getAccessToken client appId clientSecret w = (Normal accessToken, w1) ->
  let target := parseTarget (ctx_to ctx) in
  let made := calls_made (sendText client ctx w) in
  let issuance := GetAccessToken appId clientSecret in
  (Js.truthy (ctx_replyToId ctx) = false ->
     (target_type target = c2c ->
        made = [issuance;
                SendProactiveC2CMessage accessToken (target_id target) (ctx_text ctx)])
     /\ (target_type target = group ->
        made = [issuance;
                SendProactiveGroupMessage accessToken (target_id target) (ctx_text ctx)])
     /\ (target_type target = channel ->
        made = [issuance;
                SendChannelMessage accessToken (target_id target) (ctx_text ctx) None]))
  /\ (forall replyToId, ctx_replyToId ctx = Some replyToId -> replyToId <> "" ->
     (target_type target = c2c ->
        made = [issuance;
                SendC2CMessage accessToken (target_id target) (ctx_text ctx)
                  (Some replyToId)])
     /\ (target_type target = group ->
        made = [issuance;
                SendGroupMessage accessToken (target_id target) (ctx_text ctx)
                  (Some replyToId)])
     /\ (target_type target = channel ->
        made = [issuance;
                SendChannelMessage accessToken (target_id target) (ctx_text ctx)
                  (Some replyToId)])).
Proof.
  intros Ha Na Hs Ns Htok target made issuance.
  assert (Hc : credentials (ctx_account ctx) = Some (appId, clientSecret))
    by (apply credentials_Some; auto).
  subst made issuance target. unfold calls_made. split.
  - intros Hr. apply reply_marker_None in Hr.
    repeat split; intros Ht; run_async; rewrite Hc, Htok, Hr, Ht;
      repeat split_match; reflexivity.
  - intros r Hr Nr.
    assert (Hm : reply_marker (ctx_replyToId ctx) = Some r)
      by (apply reply_marker_Some; auto).
    repeat split; intros Ht; run_async; rewrite Hc, Htok, Hm, Ht;
      repeat split_match; reflexivity.
Qed.

(** When the token is refused, the dispatch ends there: nothing is sent. *)
Lemma sendText_token_refused (ctx : OutboundContext) (w : W)
    (appId clientSecret : string) (e : Thrown) (w1 : W) :
  credentials (ctx_account ctx) = Some (appId, clientSecret) ->
  api_getAccessToken client appId clientSecret w = (Throw e, w1) ->
  sendText client ctx w
  = (Normal (failed e), w1, [mkEvent (GetAccessToken appId clientSecret) (Some e)]).
Proof. intros Hc Htok. run_async. now rewrite Hc, Htok. Qed.

(** C10.  The standalone proactive entry point is the dispatcher without a
    [replyToId] (absent, or empty, which the dispatcher treats alike): same
    outcome, same world afterwards, same remote calls. *)
Theorem sendProactiveMessage_is_sendText (account : ResolvedQQBotAccount)
    (to text : string) (accountId replyToId : option string) (w : W) :
  Js.truthy replyToId = false ->
  sendProactiveMessage client account to text w
  = sendText client (mkContext to text accountId replyToId account) w.
Proof.
  intros H. apply reply_marker_None in H.
  unfold sendProactiveMessage, sendText. cbn [ctx_account ctx_replyToId ctx_to ctx_text].
  rewrite H. reflexivity.
Qed.

End OutboundProperties.

(** *** Worked dispatches *)

(** C1, as stated, fails: an empty [replyToId] is present, and the passive
    operation is not called with it; [sendText] takes the proactive path. *)
Lemma sendText_empty_replyToId_is_proactive :
  ~ (calls_made
       (sendText answering_client
          (mkContext "c2c:ABCD1234" "hi" None (Some "") configured_account) 0)
     = [GetAccessToken "102146862" "secret";
        SendC2CMessage "token" "ABCD1234" "hi" (Some "")]).
Proof. intros H. discriminate H. Qed.

Example sendText_empty_replyToId_calls :
  calls_made
    (sendText answering_client
       (mkContext "c2c:ABCD1234" "hi" None (Some "") configured_account) 0)
  = [GetAccessToken "102146862" "secret";
     SendProactiveC2CMessage "token" "ABCD1234" "hi"].
Proof. reflexivity. Qed.

(** Scenarios A and B of the design document. *)
Lemma sendText_dispatch_witness :
  calls_made
    (sendText answering_client
       (mkContext "c2c:ABCD1234" "hi" None None configured_account) 0)
  = [GetAccessToken "102146862" "secret";
     SendProactiveC2CMessage "token" "ABCD1234" "hi"]
  /\ calls_made
       (sendText answering_client
          (mkContext "group:G1" "hi" None (Some "msg-42") configured_account) 0)
     = [GetAccessToken "102146862" "secret";
        SendGroupMessage "token" "G1" "hi" (Some "msg-42")].
Proof.
  assert (N1 : "102146862" <> "") by discriminate.
  assert (N2 : "secret" <> "") by discriminate.
  assert (N3 : "msg-42" <> "") by discriminate.
  split.
  - exact (proj1 (proj1 (sendText_dispatch answering_client
             (mkContext "c2c:ABCD1234" "hi" None None configured_account) 0
             "102146862" "secret" "token" 1 eq_refl N1 eq_refl N2 eq_refl) eq_refl)
             eq_refl).
  - exact (proj1 (proj2 (proj2 (sendText_dispatch answering_client
             (mkContext "group:G1" "hi" None (Some "msg-42") configured_account) 0
             "102146862" "secret" "token" 1 eq_refl N1 eq_refl N2 eq_refl)
             "msg-42" eq_refl N3)) eq_refl).
Defined.

Example sendText_scenario_A :
  sendText answering_client
    (mkContext "c2c:ABCD1234" "hi" None None configured_account) 0
  = (Normal (mkResult "qqbot" (Some "m-proactive-c2c") (Some (TsNumber 1700000000)) None),
     2,
     [mkEvent (GetAccessToken "102146862" "secret") None;
      mkEvent (SendProactiveC2CMessage "token" "ABCD1234" "hi") None]).
Proof. reflexivity. Qed.

Example sendText_quota_exceeded :
  sendText refusing_client
    (mkContext "group:G1" "hi" None None configured_account) 0
  = (Normal (mkResult "qqbot" None None (Some "quota exceeded")),
     2,
     [mkEvent (GetAccessToken "102146862" "secret") None;
      mkEvent (SendProactiveGroupMessage "token" "G1" "hi")
        (Some (ThrownError "quota exceeded"))]).
Proof. reflexivity. Qed.

(** The proactive entry point against the dispatcher, on a refused send. *)
Lemma sendProactiveMessage_is_sendText_witness :
  Js.truthy None = false
  /\ sendProactiveMessage refusing_client configured_account "group:G1" "hi" 0
     = sendText refusing_client
         (mkContext "group:G1" "hi" (Some "default") None configured_account) 0
  /\ sendText refusing_client
       (mkContext "group:G1" "hi" (Some "default") None configured_account) 0
     = (Normal (mkResult "qqbot" None None (Some "quota exceeded")),
        2,
        [mkEvent (GetAccessToken "102146862" "secret") None;
         mkEvent (SendProactiveGroupMessage "token" "G1" "hi")
           (Some (ThrownError "quota exceeded"))]).
Proof.
  split; [reflexivity |]. split; [| reflexivity].
  exact (sendProactiveMessage_is_sendText refusing_client configured_account
           "group:G1" "hi" (Some "default") None 0 eq_refl).
Defined.

(** C3, as stated, fails on the wording of the error: the outcome for an
    account without credentials does not read ["not configured"]. *)
Lemma sendText_not_configured_wording :
  ~ (forall result w' calls,
       sendText answering_client
         (mkContext "c2c:ABCD1234" "hi" None None unconfigured_account) 0
       = (Normal result, w', calls) ->
       res_error result = Some "not configured").
Proof.
  intros H. specialize (H _ _ _ eq_refl). discriminate H.
Qed.

Lemma sendText_not_configured_witness :
  (acct_appId unconfigured_account = None
   \/ acct_clientSecret unconfigured_account = None)
  /\ sendText answering_client
       (mkContext "c2c:ABCD1234" "hi" None None unconfigured_account) 0
     = (Normal (mkResult "qqbot" None None
                  (Some "QQBot not configured (missing appId or clientSecret)")),
        0, []).
Proof.
  assert (H : acct_appId unconfigured_account = None
              \/ acct_clientSecret unconfigured_account = None)
    by (left; reflexivity).
  split; [exact H |].
  exact (sendText_not_configured answering_client
           (mkContext "c2c:ABCD1234" "hi" None None unconfigured_account) 0 H).
Defined.

(** ** Session status *)

Lemma callback_preserves (status : ChannelAccountSnapshot) (cb : GatewayCallback) :
  connected_implies_running status ->
  connected_implies_running (callback status cb).
Proof.
  unfold connected_implies_running. destruct cb as [now | message]; simpl; auto.
Qed.

Lemma after_callbacks_preserves (cbs : list GatewayCallback)
    (status : ChannelAccountSnapshot) :
  connected_implies_running status ->
  connected_implies_running (after_callbacks cbs status).
Proof.
  unfold after_callbacks. revert status.
  induction cbs as [|cb cbs IH]; intros status H; simpl.
  - exact H.
  - apply IH, callback_preserves, H.
Qed.

Lemma defaultRuntime_ok : connected_implies_running defaultRuntime.
Proof. unfold connected_implies_running. simpl. discriminate. Qed.

Lemma buildAccountSnapshot_preserves (account : option ResolvedQQBotAccount)
    (runtime : option ChannelAccountSnapshot) :
  (forall r, runtime = Some r -> connected_implies_running r) ->
  connected_implies_running (buildAccountSnapshot account runtime).
Proof.
  unfold connected_implies_running. intros H. simpl.
  destruct runtime as [r|]; simpl; [| discriminate].
  specialize (H r eq_refl).
  destruct (snap_connected r) as [[|]|]; simpl; try discriminate.
  rewrite H by reflexivity. reflexivity.
Qed.

(** C9, as stated, fails: [buildAccountSnapshot] copies the two flags of the
    runtime it is handed, so a runtime with [connected: true] and
    [running: false] yields a snapshot that breaks the invariant. *)
Lemma buildAccountSnapshot_copies_flags :
  ~ connected_implies_running
      (buildAccountSnapshot (Some configured_account)
         (Some (mkSnapshot "default" None None None None
                  (Some false) (Some true) None None))).
Proof.
  unfold connected_implies_running. simpl. intros H.
  specialize (H eq_refl). discriminate H.
Qed.

(** The same happens when the runtime lacks the [running] field. *)
Example buildAccountSnapshot_defaults_running :
  buildAccountSnapshot None
    (Some (mkSnapshot "default" None None None None None (Some true) None None))
  = mkSnapshot "default" None (Some false) (Some false) None
      (Some false) (Some true) None None.
Proof. reflexivity. Qed.

(** C9, amended.  [connected => running] holds of the default runtime, of
    every status the [onReady] and [onError] callbacks write starting from
    the default, and of every snapshot [buildAccountSnapshot] builds from no
    runtime or from a runtime that satisfies the invariant itself (so of
    every snapshot of a status written by the callbacks). *)
Theorem status_connected_implies_running :
  connected_implies_running defaultRuntime
  /\ (forall cbs, connected_implies_running (after_callbacks cbs defaultRuntime))
  /\ (forall account runtime,
        (forall r, runtime = Some r -> connected_implies_running r) ->
        connected_implies_running (buildAccountSnapshot account runtime))
  /\ (forall account cbs,
        connected_implies_running
          (buildAccountSnapshot account (Some (after_callbacks cbs defaultRuntime)))).
Proof.
  split; [exact defaultRuntime_ok |].
  split; [intros cbs; apply after_callbacks_preserves, defaultRuntime_ok |].
  split; [exact buildAccountSnapshot_preserves |].
  intros account cbs. apply buildAccountSnapshot_preserves.
  intros r H. injection H as <-.
  apply after_callbacks_preserves, defaultRuntime_ok.
Qed.

Lemma status_connected_implies_running_witness :
  after_callbacks [Ready 1700000000; Error "socket closed"] defaultRuntime
  = mkSnapshot "default" None None None None (Some true) (Some true)
      (Some 1700000000%Z) (Some "socket closed")
  /\ connected_implies_running
       (buildAccountSnapshot (Some configured_account)
          (Some (mkSnapshot "default" None None None None (Some true) (Some true)
                   (Some 1700000000%Z) (Some "socket closed")))).
Proof.
  split; [reflexivity |].
  apply (proj1 (proj2 (proj2 status_connected_implies_running))).
  intros r H. injection H as <-.
  exact (proj1 (proj2 status_connected_implies_running)
           [Ready 1700000000; Error "socket closed"]).
Defined.

(** ** The access-token cache *)

Section TokenCacheProperties.

Import AccessTokenCache.

Variable safetyMargin : Z.

Lemma key_eqb_spec (k1 k2 : Key) : reflect (k1 = k2) (key_eqb k1 k2).
Proof.
  destruct k1 as [a1 s1], k2 as [a2 s2]. unfold key_eqb. simpl.
  destruct (String.eqb_spec a1 a2), (String.eqb_spec s1 s2); simpl;
    constructor; congruence.
Qed.

Lemma key_eqb_refl (k : Key) : key_eqb k k = true.
Proof. destruct (key_eqb_spec k k); congruence. Qed.

Lemma key_eqb_ne (k k' : Key) : k' <> k -> key_eqb k k' = false.
Proof. intros N. destruct (key_eqb_spec k k'); congruence. Qed.

(** *** The list of issuances in flight *)

Lemma waiters_of_None (k : Key) (l : list Issuance) :
  waiters_of k l = None <-> ~ In k (map issuance_key l).
Proof.
  induction l as [|i l IH]; simpl.
  - tauto.
  - destruct (key_eqb_spec k (issuance_key i)) as [E | N].
    + split; [discriminate | intros H; elim H; auto].
    + rewrite IH. intuition congruence.
Qed.

Lemma join_keys (k : Key) (c : Caller) (l : list Issuance) :
  map issuance_key (join k c l) = map issuance_key l.
Proof.
  unfold join. rewrite map_map. apply map_ext.
  intros i. destruct (key_eqb k (issuance_key i)); reflexivity.
Qed.

Lemma settle_keys (k : Key) (l : list Issuance) :
  map issuance_key (settle k l)
  = filter (fun k' => negb (key_eqb k k')) (map issuance_key l).
Proof.
  unfold settle. induction l as [|i l IH]; simpl; [reflexivity |].
  destruct (key_eqb k (issuance_key i)); simpl; now rewrite IH.
Qed.

Lemma waiters_of_start (k k' : Key) (c : Caller) (l : list Issuance) :
  waiters_of k (l ++ [mkIssuance k' [c]])
  = match waiters_of k l with
    | Some ws => Some ws
    | None => if key_eqb k k' then Some [c] else None
    end.
Proof.
  induction l as [|i l IH]; simpl; [reflexivity |].
  destruct (key_eqb k (issuance_key i)); [reflexivity | exact IH].
Qed.

Lemma waiters_of_join (k k' : Key) (c : Caller) (l : list Issuance) :
  waiters_of k (join k' c l)
  = match waiters_of k l with
    | Some ws => Some (if key_eqb k' k then ws ++ [c] else ws)%list
    | None => None
    end.
Proof.
  induction l as [|i l IH]; simpl; [reflexivity |].
  destruct (key_eqb_spec k' (issuance_key i)) as [E | N]; simpl.
  - destruct (key_eqb_spec k (issuance_key i)) as [E' | N'].
    + subst k'. rewrite E', key_eqb_refl. reflexivity.
    + exact IH.
  - destruct (key_eqb_spec k (issuance_key i)) as [E' | N'].
    + subst k. rewrite (key_eqb_ne k' (issuance_key i)) by congruence. reflexivity.
    + exact IH.
Qed.

Lemma waiters_of_settle_ne (k k' : Key) (l : list Issuance) :
  k' <> k -> waiters_of k (settle k' l) = waiters_of k l.
Proof.
  intros N. unfold settle. induction l as [|i l IH]; simpl; [reflexivity |].
  destruct (key_eqb_spec k' (issuance_key i)) as [E | N']; simpl.
  - rewrite IH. destruct (key_eqb_spec k (issuance_key i)); congruence.
  - now rewrite IH.
Qed.

(** *** The cache *)

Lemma cache_get_put (k : Key) (t : AccessToken) (c : list (Key * AccessToken)) :
  cache_get k (cache_put k t c) = Some t.
Proof. unfold cache_put. simpl. now rewrite key_eqb_refl. Qed.

Lemma cache_get_put_ne (k k' : Key) (t : AccessToken) (c : list (Key * AccessToken)) :
  k' <> k -> cache_get k (cache_put k' t c) = cache_get k c.
Proof.
  intros N. unfold cache_put. simpl. rewrite key_eqb_ne by congruence.
  induction c as [|[k0 t0] c IH]; simpl; [reflexivity |].
  destruct (key_eqb_spec k' k0) as [E | N0]; simpl.
  - subst k0. now rewrite key_eqb_ne by congruence.
  - now rewrite IH.
Qed.

(** *** One issuance per key *)

Lemma getToken_inflight_nodup (c : Caller) (k : Key) (now : Z) (s : State) :
  NoDup (inflight_keys s) -> NoDup (inflight_keys (getToken safetyMargin c k now s)).
Proof.
  unfold getToken, inflight_keys. intros H.
  destruct (cached safetyMargin k now s); simpl; [exact H |].
  destruct (waiters_of k (inflight s)) eqn:Hw; simpl.
  - now rewrite join_keys.
  - rewrite map_app. simpl. apply waiters_of_None in Hw.
    apply NoDup_rev in H. rewrite <- (rev_involutive (_ ++ _)%list).
    apply NoDup_rev. rewrite rev_app_distr. simpl.
    constructor; [| exact H]. now rewrite <- in_rev.
Qed.

Lemma complete_inflight_nodup (k : Key) (a : Answer) (s : State) :
  NoDup (inflight_keys s) -> NoDup (inflight_keys (complete k a s)).
Proof.
  unfold complete, inflight_keys. intros H.
  destruct (waiters_of k (inflight s)); simpl; [| exact H].
  rewrite settle_keys. now apply NoDup_filter.
Qed.

Lemma step_inflight_nodup (s : State) (e : Event) :
  NoDup (inflight_keys s) -> NoDup (inflight_keys (step safetyMargin s e)).
Proof.
  destruct e; simpl;
    [apply getToken_inflight_nodup | apply complete_inflight_nodup ..].
Qed.

Lemma run_inflight_nodup (es : list Event) (s : State) :
  NoDup (inflight_keys s) -> NoDup (inflight_keys (run safetyMargin es s)).
Proof.
  unfold run. revert s. induction es as [|e es IH]; intros s H; simpl.
  - exact H.
  - apply IH, step_inflight_nodup, H.
Qed.

(** *** What the events of other keys leave alone *)

Lemma same_for_refl (k : Key) (s : State) : same_for k s s.
Proof. unfold same_for. auto. Qed.

Lemma same_for_trans (k : Key) (s1 s2 s3 : State) :
  same_for k s1 s2 -> same_for k s2 s3 -> same_for k s1 s3.
Proof. unfold same_for. intros (A & B & C) (A' & B' & C'). repeat split; congruence. Qed.

Lemma issuances_start (k k' : Key) (l : list Key) :
  List.length (filter (key_eqb k) (l ++ [k']))
  = List.length (filter (key_eqb k) l) + (if key_eqb k k' then 1 else 0).
Proof.
  rewrite filter_app, length_app. simpl.
  destruct (key_eqb k k'); reflexivity.
Qed.

Lemma step_other_key (k : Key) (s : State) (e : Event) :
  event_key e <> k -> same_for k s (step safetyMargin s e).
Proof.
  intros N. unfold same_for, issuances.
  destruct e as [c k' now | k' t | k' err]; simpl in *.
  - unfold getToken. destruct (cached safetyMargin k' now s); simpl; auto.
    destruct (waiters_of k' (inflight s)); simpl.
    + rewrite waiters_of_join, (key_eqb_ne k' k) by congruence.
      destruct (waiters_of k (inflight s)); auto.
    + rewrite waiters_of_start, issuances_start, key_eqb_ne by congruence.
      destruct (waiters_of k (inflight s)); auto.
  - unfold complete. destruct (waiters_of k' (inflight s)); auto.
    cbn [cache inflight issued].
    rewrite cache_get_put_ne, waiters_of_settle_ne by congruence. auto.
  - unfold complete. destruct (waiters_of k' (inflight s)); auto.
    cbn [cache inflight issued].
    rewrite waiters_of_settle_ne by congruence. auto.
Qed.

Lemma run_other_keys (k : Key) (es : list Event) (s : State) :
  Forall (fun e => event_key e <> k) es -> same_for k s (run safetyMargin es s).
Proof.
  unfold run. revert s. induction es as [|e es IH]; intros s H; simpl.
  - apply same_for_refl.
  - inversion H as [|? ? He Hes]; subst.
    eapply same_for_trans; [apply step_other_key, He | apply IH, Hes].
Qed.

Lemma run_app (es1 es2 : list Event) (s : State) :
  run safetyMargin (es1 ++ es2) s = run safetyMargin es2 (run safetyMargin es1 s).
Proof. unfold run. apply fold_left_app. Qed.

Lemma waiters_of_settle (k : Key) (l : list Issuance) :
  waiters_of k (settle k l) = None.
Proof.
  apply waiters_of_None. rewrite settle_keys, filter_In.
  intros [_ H]. now rewrite key_eqb_refl in H.
Qed.

(** A token too old to be served stays so. *)
Lemma cached_later (k : Key) (now1 now2 : Z) (s s' : State) :
  cached safetyMargin k now1 s = None -> (now1 <= now2)%Z ->
  cache_get k (cache s') = cache_get k (cache s) ->
  cached safetyMargin k now2 s' = None.
Proof.
  unfold cached, usable. intros H Hle ->.
  destruct (cache_get k (cache s)) as [t|]; [| reflexivity].
  destruct (Z.ltb_spec now1 (token_expiresAt t - safetyMargin)); [discriminate H |].
  destruct (Z.ltb_spec now2 (token_expiresAt t - safetyMargin)); [lia | reflexivity].
Qed.

(** The first caller of a key without a usable token starts the issuance. *)
Lemma getToken_starts (c : Caller) (k : Key) (now : Z) (s : State) :
  cached safetyMargin k now s = None ->
  waiters_of k (inflight s) = None ->
  let s' := getToken safetyMargin c k now s in
  cache_get k (cache s') = cache_get k (cache s)
  /\ waiters_of k (inflight s') = Some [c]
  /\ issuances k s' = S (issuances k s)
  /\ answers s' = answers s.
Proof.
  intros Hc Hw. unfold getToken, issuances. rewrite Hc, Hw. simpl.
  rewrite waiters_of_start, Hw, issuances_start, key_eqb_refl.
  repeat split; auto. lia.
Qed.

(** A caller that finds the issuance of its key in flight joins it. *)
Lemma getToken_joins (c : Caller) (k : Key) (now : Z) (s : State) (ws : list Caller) :
  cached safetyMargin k now s = None ->
  waiters_of k (inflight s) = Some ws ->
  let s' := getToken safetyMargin c k now s in
  cache_get k (cache s') = cache_get k (cache s)
  /\ waiters_of k (inflight s') = Some (ws ++ [c])%list
  /\ issuances k s' = issuances k s
  /\ answers s' = answers s.
Proof.
  intros Hc Hw. unfold getToken, issuances. rewrite Hc, Hw. simpl.
  rewrite waiters_of_join, Hw, key_eqb_refl. auto.
Qed.

(** The answer to an issuance reaches every caller that awaited it. *)
Lemma complete_answers (k : Key) (a : Answer) (s : State) (ws : list Caller) :
  waiters_of k (inflight s) = Some ws ->
  let s' := complete k a s in
  answers s' = (answers s ++ map (fun c => (c, a)) ws)%list
  /\ waiters_of k (inflight s') = None
  /\ issuances k s' = issuances k s.
Proof.
  intros Hw. unfold complete, issuances. rewrite Hw. simpl.
  rewrite waiters_of_settle. auto.
Qed.

(** Two callers of one key, with the events of other keys in between, and
    then the answer to the issuance of the key. *)
Lemma two_callers (s : State) (k : Key) (c1 c2 : Caller) (now1 now2 : Z)
    (es1 es2 : list Event) (a : Answer) :
  cached safetyMargin k now1 s = None ->
  (now1 <= now2)%Z ->
  Forall (fun e => event_key e <> k) es1 ->
  Forall (fun e => event_key e <> k) es2 ->
  let ws := match waiters_of k (inflight s) with Some ws => ws | None => [] end in
  let started := match waiters_of k (inflight s) with Some _ => 0 | None => 1 end in
  let s2 := run safetyMargin (Call c1 k now1 :: es1 ++ Call c2 k now2 :: es2) s in
  let s3 := complete k a s2 in
  issuances k s2 = issuances k s + started
  /\ waiters_of k (inflight s2) = Some (ws ++ [c1; c2])%list
  /\ cache_get k (cache s2) = cache_get k (cache s)
  /\ issuances k s3 = issuances k s2
  /\ answers s3 = (answers s2 ++ map (fun c => (c, a)) (ws ++ [c1; c2]))%list
  /\ waiters_of k (inflight s3) = None.
Proof.
  intros Hc Hle H1 H2 ws started s2 s3.
  assert (F : cache_get k (cache (getToken safetyMargin c1 k now1 s))
              = cache_get k (cache s)
              /\ waiters_of k (inflight (getToken safetyMargin c1 k now1 s))
                 = Some (ws ++ [c1])%list
              /\ issuances k (getToken safetyMargin c1 k now1 s)
                 = issuances k s + started).
  { subst ws started. destruct (waiters_of k (inflight s)) as [ws|] eqn:Hw.
    - destruct (getToken_joins c1 k now1 s ws Hc Hw) as (A & B & C & _).
      repeat split; auto. lia.
    - destruct (getToken_starts c1 k now1 s Hc Hw) as (A & B & C & _).
      repeat split; auto. lia. }
  destruct F as (A1 & B1 & C1).
  set (s1 := getToken safetyMargin c1 k now1 s) in *.
  destruct (run_other_keys k es1 s1 H1) as (A2 & B2 & C2).
  set (s1' := run safetyMargin es1 s1) in *.
  assert (Hc' : cached safetyMargin k now2 s1' = None)
    by (apply (cached_later k now1 now2 s); congruence).
  assert (Hw' : waiters_of k (inflight s1') = Some (ws ++ [c1])%list) by congruence.
  destruct (getToken_joins c2 k now2 s1' _ Hc' Hw') as (A3 & B3 & C3 & _).
  set (s1'' := getToken safetyMargin c2 k now2 s1') in *.
  destruct (run_other_keys k es2 s1'' H2) as (A4 & B4 & C4).
  assert (E : s2 = run safetyMargin es2 s1'').
  { subst s2 s1'' s1' s1. change (Call c1 k now1 :: es1 ++ Call c2 k now2 :: es2)
      with ([Call c1 k now1] ++ es1 ++ [Call c2 k now2] ++ es2)%list.
    now rewrite !run_app. }
  assert (Hw2 : waiters_of k (inflight s2) = Some (ws ++ [c1; c2])%list).
  { rewrite E, B4, B3, <- app_assoc. reflexivity. }
  destruct (complete_answers k a s2 _ Hw2) as (A5 & B5 & C5).
  repeat split; auto; rewrite E; congruence.
Qed.

(** C8.  At most one issuance per credential pair is in flight in every
    state the cache reaches.  When two callers ask for the token of a key
    that has no usable cached token, whatever happens to other keys in
    between: if no issuance of the key is in flight, exactly one issuance
    call is made for the key and the two callers are the ones awaiting it;
    if one is in flight, no further call is made and both join it.  In both
    cases the answer to that one issuance hands both callers the same
    token. *)
Theorem getToken_coalesces :
  (forall es, NoDup (inflight_keys (run safetyMargin es empty)))
  /\ (forall s k c1 c2 now1 now2 es1 es2 t,
        cached safetyMargin k now1 s = None ->
        (now1 <= now2)%Z ->
        waiters_of k (inflight s) = None ->
        Forall (fun e => event_key e <> k) es1 ->
        Forall (fun e => event_key e <> k) es2 ->
        let s2 := run safetyMargin (Call c1 k now1 :: es1 ++ Call c2 k now2 :: es2) s in
        let s3 := step safetyMargin s2 (Issued k t) in
        issuances k s2 = S (issuances k s)
        /\ waiters_of k (inflight s2) = Some [c1; c2]
        /\ issuances k s3 = S (issuances k s)
        /\ answers s3 = (answers s2 ++ [(c1, Token t); (c2, Token t)])%list
        /\ waiters_of k (inflight s3) = None)
  /\ (forall s k c1 c2 now1 now2 es1 es2 t ws,
        cached safetyMargin k now1 s = None ->
        (now1 <= now2)%Z ->
        waiters_of k (inflight s) = Some ws ->
        Forall (fun e => event_key e <> k) es1 ->
        Forall (fun e => event_key e <> k) es2 ->
        let s2 := run safetyMargin (Call c1 k now1 :: es1 ++ Call c2 k now2 :: es2) s in
        let s3 := step safetyMargin s2 (Issued k t) in
        issuances k s3 = issuances k s
        /\ waiters_of k (inflight s2) = Some (ws ++ [c1; c2])%list
        /\ In (c1, Token t) (answers s3)
        /\ In (c2, Token t) (answers s3)
        /\ waiters_of k (inflight s3) = None).
Proof.
  split; [| split].
  - intros es. apply run_inflight_nodup. constructor.
  - intros s k c1 c2 now1 now2 es1 es2 t Hc Hle Hw H1 H2 s2 s3.
    destruct (two_callers s k c1 c2 now1 now2 es1 es2 (Token t) Hc Hle H1 H2)
      as (A & B & _ & C & D & E).
    rewrite Hw in A, B, D. cbn [app map] in A, B, D.
    subst s2 s3. cbn [step]. repeat split; auto; lia.
  - intros s k c1 c2 now1 now2 es1 es2 t ws Hc Hle Hw H1 H2 s2 s3.
    destruct (two_callers s k c1 c2 now1 now2 es1 es2 (Token t) Hc Hle H1 H2)
      as (A & B & _ & C & D & E).
    rewrite Hw in A, B, D.
    subst s2 s3. cbn [step]. repeat split; auto.
    + lia.
    + rewrite D, in_app_iff, map_app, in_app_iff. simpl. auto.
    + rewrite D, in_app_iff, map_app, in_app_iff. simpl. auto.
Qed.

(** A failed issuance fails every caller that awaited it and leaves the
    cache entry of the key as it was; the next caller starts a new one. *)
Lemma getToken_failure_shared (s : State) (k : Key) (c1 c2 c3 : Caller)
    (now1 now2 now3 : Z) (err : string) :
  cached safetyMargin k now1 s = None ->
  (now1 <= now2)%Z -> (now2 <= now3)%Z ->
  waiters_of k (inflight s) = None ->
  let s2 := run safetyMargin [Call c1 k now1; Call c2 k now2] s in
  let s3 := step safetyMargin s2 (IssueFailed k err) in
  let s4 := step safetyMargin s3 (Call c3 k now3) in
  answers s3 = (answers s2 ++ [(c1, Failure err); (c2, Failure err)])%list
  /\ cache_get k (cache s3) = cache_get k (cache s)
  /\ issuances k s4 = S (S (issuances k s)).
Proof.
  intros Hc Hle Hle' Hw s2 s3 s4.
  destruct (two_callers s k c1 c2 now1 now2 [] [] (Failure err) Hc Hle
              (Forall_nil _) (Forall_nil _)) as (A & B & C & D & E & F).
  rewrite Hw in A, B, E. cbn [app map] in A, B, C, D, E, F.
  change (run safetyMargin [Call c1 k now1; Call c2 k now2] s)
    with s2 in A, B, C, D, E, F.
  change (complete k (Failure err) s2) with s3 in D, E, F.
  assert (G : cache_get k (cache s3) = cache_get k (cache s)).
  { rewrite <- C. unfold s3. cbn [step]. unfold complete. now rewrite B. }
  assert (Hc3 : cached safetyMargin k now3 s3 = None)
    by (apply (cached_later k now1 now3 s); auto; lia).
  destruct (getToken_starts c3 k now3 s3 Hc3 F) as (_ & _ & I & _).
  repeat split; auto. unfold s4. cbn [step]. lia.
Qed.

End TokenCacheProperties.

(** Two callers of one key, a caller of another key in between. *)
Lemma getToken_coalesces_witness :
  let k := ("102146862", "secret") in
  let other := ("102146863", "secret") in
  let t := AccessTokenCache.mkToken "token" 7200000 in
  let s2 :=
    AccessTokenCache.run 300000
      (AccessTokenCache.Call 1 k 0
       :: [AccessTokenCache.Call 7 other 1]
       ++ AccessTokenCache.Call 2 k 2 :: [])
      AccessTokenCache.empty in
  let s3 := AccessTokenCache.step 300000 s2 (AccessTokenCache.Issued k t) in
  AccessTokenCache.issued s2 = [k; other]
  /\ AccessTokenCache.issuances k s3 = 1
  /\ AccessTokenCache.answers s3
     = [(1, AccessTokenCache.Token t); (2, AccessTokenCache.Token t)].
Proof.
  intros k other t s2 s3.
  split; [reflexivity |].
  assert (N : Forall (fun e => AccessTokenCache.event_key e <> k)
                [AccessTokenCache.Call 7 other 1])
    by (constructor; [discriminate | constructor]).
  destruct (proj1 (proj2 (getToken_coalesces 300000))
              AccessTokenCache.empty k 1 2 0%Z 2%Z
              [AccessTokenCache.Call 7 other 1] [] t
              eq_refl ltac:(discriminate) eq_refl N (Forall_nil _))
    as (_ & _ & H3 & H4 & _).
  split; [exact H3 | exact H4].
Defined.

(** * Further properties of the plugin *)

(** ** Addresses *)

(** The three tags exclude one another. *)
Lemma tags_exclusive (s : string) :
  (Js.startsWith s "c2c:" = true -> Js.startsWith s "group:" = false
                                    /\ Js.startsWith s "channel:" = false)
  /\ (Js.startsWith s "group:" = true -> Js.startsWith s "channel:" = false).
Proof.
  split.
  - intros H. apply startsWith_iff in H as [r ->].
    split; destruct r; reflexivity.
  - intros H. apply startsWith_iff in H as [r ->]. destruct r; reflexivity.
Qed.

(** A recognised address does not begin with a second [qqbot:]. *)
Lemma looksLikeId_stripped_once (raw : string) :
  looksLikeId raw = true -> strip_qqbot (strip_qqbot raw) = strip_qqbot raw.
Proof.
  intros H. apply looksLikeId_shaped in H.
  destruct H as [[id ->] | [[id ->] | [[id ->] | [_ H]]]].
  - apply strip_qqbot_other. reflexivity.
  - apply strip_qqbot_other. reflexivity.
  - apply strip_qqbot_other. reflexivity.
  - apply strip_qqbot_hex, all_chars_every, H.
Qed.

(** X1.  For every string [looksLikeId] recognises, normalizing it first
    (as the host does before it dispatches) changes neither the target
    [parseTarget] reads from it nor the verdict of [looksLikeId]. *)
Theorem normalizeTarget_keeps_target (raw : string) :
  looksLikeId raw = true ->
  norm_ok (normalizeTarget raw) = true
  /\ parseTarget (norm_to (normalizeTarget raw)) = parseTarget raw
  /\ looksLikeId (norm_to (normalizeTarget raw)) = true.
Proof.
  intros H. pose proof (looksLikeId_stripped_once raw H) as E.
  unfold normalizeTarget. cbn [norm_ok norm_to].
  split; [reflexivity |]. split.
  - now apply parseTarget_strip.
  - unfold looksLikeId in *. now rewrite E.
Qed.

Lemma normalizeTarget_keeps_target_witness :
  looksLikeId "QQBot:group:G1" = true
  /\ norm_to (normalizeTarget "QQBot:group:G1") = "group:G1"
  /\ parseTarget "group:G1" = parseTarget "QQBot:group:G1".
Proof.
  split; [reflexivity |]. split; [reflexivity |].
  exact (proj1 (proj2 (normalizeTarget_keeps_target "QQBot:group:G1" eq_refl))).
Defined.

(** Without that hypothesis the two differ: a doubled prefix is removed
    once by each of them. *)
Example normalizeTarget_doubled_prefix :
  parseTarget "qqbot:qqbot:group:G1" = mkTarget c2c "qqbot:group:G1"
  /\ parseTarget (norm_to (normalizeTarget "qqbot:qqbot:group:G1"))
     = mkTarget group "G1".
Proof. split; reflexivity. Qed.

(** X2.  [parseTarget] loses nothing of the address behind the optional
    prefix: that string is the id behind the tag of the surface, or, for a
    direct message without tag, the id itself. *)
Theorem parseTarget_reconstructs (raw : string) :
  match target_type (parseTarget raw) with
  | c2c => strip_qqbot raw = "c2c:" ++ target_id (parseTarget raw)
           \/ strip_qqbot raw = target_id (parseTarget raw)
  | group => strip_qqbot raw = "group:" ++ target_id (parseTarget raw)
  | channel => strip_qqbot raw = "channel:" ++ target_id (parseTarget raw)
  end.
Proof.
  unfold parseTarget.
  destruct (Js.startsWith (strip_qqbot raw) "c2c:") eqn:H1; cbn.
  { left. now apply (startsWith_inv "c2c:"). }
  destruct (Js.startsWith (strip_qqbot raw) "group:") eqn:H2; cbn.
  { now apply (startsWith_inv "group:"). }
  destruct (Js.startsWith (strip_qqbot raw) "channel:") eqn:H3; cbn.
  { now apply (startsWith_inv "channel:"). }
  now right.
Qed.

(** X3.  The group and channel surfaces come from their tags only: the
    parsed surface is [group] exactly when the address behind the prefix
    begins with [group:], and [channel] exactly when it begins with
    [channel:]; everything else is a direct message. *)
Theorem parseTarget_surface_by_tag (raw : string) :
  (target_type (parseTarget raw) = group
   <-> Js.startsWith (strip_qqbot raw) "group:" = true)
  /\ (target_type (parseTarget raw) = channel
      <-> Js.startsWith (strip_qqbot raw) "channel:" = true).
Proof.
  destruct (tags_exclusive (strip_qqbot raw)) as [E1 E2].
  unfold parseTarget.
  destruct (Js.startsWith (strip_qqbot raw) "c2c:") eqn:H1.
  { destruct (E1 eq_refl) as [-> ->]. cbn. split; split; discriminate. }
  destruct (Js.startsWith (strip_qqbot raw) "group:") eqn:H2.
  { rewrite (E2 eq_refl). cbn. split; split; auto; discriminate. }
  destruct (Js.startsWith (strip_qqbot raw) "channel:") eqn:H3; cbn;
    split; split; auto; discriminate.
Qed.

(** ** The dispatcher, once more *)

Section DispatchShape.

Context {W : Type} (client : PlatformClient W).

(** The runs of [sendText], case by case. *)
Lemma sendText_cases (ctx : OutboundContext) (w : W) :
  (credentials (ctx_account ctx) = None
   /\ sendText client ctx w = (Normal not_configured, w, []))
  \/ (exists appId clientSecret e w1,
        credentials (ctx_account ctx) = Some (appId, clientSecret)
        /\ api_getAccessToken client appId clientSecret w = (Throw e, w1)
        /\ sendText client ctx w
           = (Normal (failed e), w1,
              [mkEvent (GetAccessToken appId clientSecret) (Some e)]))
  \/ (exists appId clientSecret accessToken w1 call w2,
        credentials (ctx_account ctx) = Some (appId, clientSecret)
        /\ api_getAccessToken client appId clientSecret w = (Normal accessToken, w1)
        /\ is_send accessToken (target_id (parseTarget (ctx_to ctx))) (ctx_text ctx) call
        /\ ((exists response,
               sendText client ctx w
               = (Normal (sent response), w2,
                  [mkEvent (GetAccessToken appId clientSecret) None;
                   mkEvent call None]))
            \/ (exists e,
                  sendText client ctx w
                  = (Normal (failed e), w2,
                     [mkEvent (GetAccessToken appId clientSecret) None;
                      mkEvent call (Some e)])))).
Proof.
  unfold sendText.
  destruct (credentials (ctx_account ctx)) as [[appId clientSecret]|];
    [| left; auto].
  right. run_async.
  destruct (api_getAccessToken client appId clientSecret w)
    as [[accessToken | e] w1] eqn:Htok.
  - right. exists appId, clientSecret, accessToken, w1.
    destruct (reply_marker (ctx_replyToId ctx)),
             (target_type (parseTarget (ctx_to ctx)));
      match goal with
      | |- context [match ?op with _ => _ end] =>
          lazymatch op with
          | context [match _ with _ => _ end] => fail
          | _ => destruct op as [[response | e] w2] eqn:Hop
          end
      end;
      eexists; exists w2;
      (split; [reflexivity |]); (split; [exact Htok |]);
      (split; [| first [ left; eexists; reflexivity
                       | right; eexists; reflexivity ]]);
      cbn; auto.
  - left. exists appId, clientSecret, e, w1. auto.
Qed.

(** A run of [sendText] against what the client answers: to the token
    issuance, and then to the one send that follows it. *)
Lemma sendText_anatomy (ctx : OutboundContext) (w : W) :
  match credentials (ctx_account ctx) with
  | None => sendText client ctx w = (Normal not_configured, w, [])
  | Some (appId, clientSecret) =>
      let (issued, w1) := api_getAccessToken client appId clientSecret w in
      match issued with
      | Throw e =>
          sendText client ctx w
          = (Normal (failed e), w1,
             [mkEvent (GetAccessToken appId clientSecret) (Some e)])
      | Normal accessToken =>
          exists call answer w2,
            is_send accessToken (target_id (parseTarget (ctx_to ctx)))
              (ctx_text ctx) call
            /\ send_answer client call w1 = Some (answer, w2)
            /\ sendText client ctx w
               = (Normal match answer with
                         | Normal response => sent response
                         | Throw e => failed e
                         end,
                  w2,
                  [mkEvent (GetAccessToken appId clientSecret) None;
                   mkEvent call match answer with
                                | Normal _ => None
                                | Throw e => Some e
                                end])
      end
  end.
Proof.
  unfold sendText.
  destruct (credentials (ctx_account ctx)) as [[appId clientSecret]|];
    [| reflexivity].
  run_async.
  destruct (api_getAccessToken client appId clientSecret w) as [[accessToken | e] w1];
    [| reflexivity].
  set (id := target_id (parseTarget (ctx_to ctx))).
  destruct (reply_marker (ctx_replyToId ctx)) as [r|],
           (target_type (parseTarget (ctx_to ctx)));
    [ exists (SendC2CMessage accessToken id (ctx_text ctx) (Some r))
    | exists (SendGroupMessage accessToken id (ctx_text ctx) (Some r))
    | exists (SendChannelMessage accessToken id (ctx_text ctx) (Some r))
    | exists (SendProactiveC2CMessage accessToken id (ctx_text ctx))
    | exists (SendProactiveGroupMessage accessToken id (ctx_text ctx))
    | exists (SendChannelMessage accessToken id (ctx_text ctx) None) ];
    cbn [send_answer is_send];
    match goal with
    | |- context [Some ?op = Some _] => destruct op as [[response | e] w2]
    end;
    do 2 eexists; (split; [auto |]); (split; [reflexivity |]); reflexivity.
Qed.

(** C2.  Whatever the platform client does, [sendText] completes normally:
    no exception leaves it.  When the token issuance throws, and when the
    send that follows an issued token throws, the outcome has no [messageId]
    and its [error] is the message of what the client threw: [err.message]
    of an [Error], [String(err)] of anything else. *)
Theorem sendText_never_throws (ctx : OutboundContext) (w : W) :
  exists result w' calls,
    sendText client ctx w = (Normal result, w', calls)
    /\ (forall call e, In (mkEvent call (Some e)) calls ->
          res_error result
          = Some match e with
                 | ThrownError message => message
                 | ThrownOther rendering => rendering
                 end)
    /\ (forall appId clientSecret,
          acct_appId (ctx_account ctx) = Some appId -> appId <> "" ->
          acct_clientSecret (ctx_account ctx) = Some clientSecret ->
          clientSecret <> "" ->
          (forall e w1,
             api_getAccessToken client appId clientSecret w = (Throw e, w1) ->
             calls = [mkEvent (GetAccessToken appId clientSecret) (Some e)]
             /\ res_messageId result = None
             /\ res_error result
                = Some match e with
                       | ThrownError message => message
                       | ThrownOther rendering => rendering
                       end)
          /\ (forall accessToken w1,
                api_getAccessToken client appId clientSecret w
                = (Normal accessToken, w1) ->
                exists call answer w2,
                  is_send accessToken (target_id (parseTarget (ctx_to ctx)))
                    (ctx_text ctx) call
                  /\ send_answer client call w1 = Some (answer, w2)
                  /\ forall e, answer = Throw e ->
                       calls = [mkEvent (GetAccessToken appId clientSecret) None;
                                mkEvent call (Some e)]
                       /\ res_messageId result = None
                       /\ res_error result
                          = Some match e with
                                 | ThrownError message => message
                                 | ThrownOther rendering => rendering
                                 end)).
Proof.
  pose proof (sendText_anatomy ctx w) as A.
  destruct (credentials (ctx_account ctx)) as [[a s]|] eqn:Hc.
  - destruct (api_getAccessToken client a s w) as [[t | e0] w1] eqn:Htok.
    + destruct A as (call & answer & w2 & Hsend & Hans & E).
      rewrite E. do 3 eexists. split; [reflexivity |]. split.
      * intros c e [H | [H | []]]; [discriminate H |].
        destruct answer as [r | e']; [discriminate H |].
        injection H as _ <-. destruct e'; reflexivity.
      * intros appId clientSecret Ha Na Hs Ns.
        assert (Hc' : credentials (ctx_account ctx) = Some (appId, clientSecret))
          by (apply credentials_Some; auto).
        rewrite Hc in Hc'. injection Hc' as <- <-. split.
        -- intros e w1' H. rewrite Htok in H. discriminate H.
        -- intros t' w1' H. rewrite Htok in H. injection H as <- <-.
           exists call, answer, w2. split; [exact Hsend |]. split; [exact Hans |].
           intros e ->. cbn. repeat split; destruct e; reflexivity.
    + rewrite A. do 3 eexists. split; [reflexivity |]. split.
      * intros c e [H | []]. injection H as _ <-. destruct e0; reflexivity.
      * intros appId clientSecret Ha Na Hs Ns.
        assert (Hc' : credentials (ctx_account ctx) = Some (appId, clientSecret))
          by (apply credentials_Some; auto).
        rewrite Hc in Hc'. injection Hc' as <- <-. split.
        -- intros e w1' H. rewrite Htok in H. injection H as <- <-.
           cbn. repeat split; destruct e0; reflexivity.
        -- intros t' w1' H. rewrite Htok in H. discriminate H.
  - rewrite A. do 3 eexists. split; [reflexivity |]. split.
    + intros c e [].
    + intros appId clientSecret Ha Na Hs Ns.
      assert (Hc' : credentials (ctx_account ctx) = Some (appId, clientSecret))
        by (apply credentials_Some; auto).
      rewrite Hc in Hc'. discriminate Hc'.
Qed.

(** X4.  Whatever the client does, [sendText] completes normally and calls
    the platform at most twice.  When [appId] or [clientSecret] is missing
    or empty it calls nothing.  Otherwise it calls the token issuance; when
    that throws, nothing else; when it returns, exactly one send follows,
    with the issued token, the id [parseTarget] read and the text unchanged.
    A [messageId] is reported exactly when that send returned, and it is the
    id of its response. *)
Theorem sendText_shape (ctx : OutboundContext) (w : W) :
  exists result w' calls,
    sendText client ctx w = (Normal result, w', calls)
    /\ (Js.truthy (acct_appId (ctx_account ctx)) = false
        \/ Js.truthy (acct_clientSecret (ctx_account ctx)) = false ->
        calls = [] /\ w' = w /\ res_messageId result = None)
    /\ (forall appId clientSecret,
          acct_appId (ctx_account ctx) = Some appId -> appId <> "" ->
          acct_clientSecret (ctx_account ctx) = Some clientSecret ->
          clientSecret <> "" ->
          (forall e w1,
             api_getAccessToken client appId clientSecret w = (Throw e, w1) ->
             calls = [mkEvent (GetAccessToken appId clientSecret) (Some e)]
             /\ w' = w1 /\ res_messageId result = None)
          /\ (forall accessToken w1,
                api_getAccessToken client appId clientSecret w
                = (Normal accessToken, w1) ->
                exists call answer,
                  is_send accessToken (target_id (parseTarget (ctx_to ctx)))
                    (ctx_text ctx) call
                  /\ send_answer client call w1 = Some (answer, w')
                  /\ calls = [mkEvent (GetAccessToken appId clientSecret) None;
                              mkEvent call match answer with
                                           | Normal _ => None
                                           | Throw e => Some e
                                           end]
                  /\ res_messageId result
                     = match answer with
                       | Normal response => Some (response_id response)
                       | Throw _ => None
                       end)).
Proof.
  pose proof (sendText_anatomy ctx w) as A.
  destruct (credentials (ctx_account ctx)) as [[a s]|] eqn:Hc.
  - assert (Hn : ~ (Js.truthy (acct_appId (ctx_account ctx)) = false
                    \/ Js.truthy (acct_clientSecret (ctx_account ctx)) = false))
      by (rewrite <- credentials_None, Hc; discriminate).
    destruct (api_getAccessToken client a s w) as [[t | e0] w1] eqn:Htok.
    + destruct A as (call & answer & w2 & Hsend & Hans & E).
      rewrite E. do 3 eexists. split; [reflexivity |].
      split; [intros H; now elim Hn |].
      intros appId clientSecret Ha Na Hs Ns.
      assert (Hc' : credentials (ctx_account ctx) = Some (appId, clientSecret))
        by (apply credentials_Some; auto).
      rewrite Hc in Hc'. injection Hc' as <- <-. split.
      * intros e w1' H. rewrite Htok in H. discriminate H.
      * intros t' w1' H. rewrite Htok in H. injection H as <- <-.
        exists call, answer. split; [exact Hsend |]. split; [exact Hans |].
        split; [reflexivity |]. destruct answer; reflexivity.
    + rewrite A. do 3 eexists. split; [reflexivity |].
      split; [intros H; now elim Hn |].
      intros appId clientSecret Ha Na Hs Ns.
      assert (Hc' : credentials (ctx_account ctx) = Some (appId, clientSecret))
        by (apply credentials_Some; auto).
      rewrite Hc in Hc'. injection Hc' as <- <-. split.
      * intros e w1' H. rewrite Htok in H. injection H as <- <-. auto.
      * intros t' w1' H. rewrite Htok in H. discriminate H.
  - rewrite A. do 3 eexists. split; [reflexivity |].
    split; [intros _; auto |].
    intros appId clientSecret Ha Na Hs Ns.
    assert (Hc' : credentials (ctx_account ctx) = Some (appId, clientSecret))
      by (apply credentials_Some; auto).
    rewrite Hc in Hc'. discriminate Hc'.
Qed.

Lemma isConfigured_credentials (account : ResolvedQQBotAccount) :
  isConfigured (Some account) = false <-> credentials account = None.
Proof.
  rewrite credentials_None. unfold isConfigured. cbn [opt_field].
  destruct (Js.truthy (acct_appId account)), (Js.truthy (acct_clientSecret account));
    cbn; intuition discriminate.
Qed.

(** X5.  The plugin computes "configured" in three places, and they agree
    with the guard of the dispatcher: [isConfigured] is false exactly when
    [sendText] returns the not-configured outcome without calling the
    platform, and [describeAccount] and [buildAccountSnapshot] report that
    same flag. *)
Theorem isConfigured_guards_sendText (ctx : OutboundContext) (w : W)
    (runtime : option ChannelAccountSnapshot) :
  (isConfigured (Some (ctx_account ctx)) = false
   <-> sendText client ctx w = (Normal not_configured, w, []))
  /\ snap_configured (describeAccount (Some (ctx_account ctx)))
     = Some (isConfigured (Some (ctx_account ctx)))
  /\ snap_configured (buildAccountSnapshot (Some (ctx_account ctx)) runtime)
     = Some (isConfigured (Some (ctx_account ctx))).
Proof.
  split; [| split; reflexivity].
  rewrite isConfigured_credentials. split.
  - apply sendText_unconfigured.
  - intros H.
    destruct (sendText_cases ctx w)
      as [[Hc _] | [(a & s & e & w1 & _ & _ & E)
                   | (a & s & t & w1 & call & w2 & _ & _ & _ & [[r E] | [e E]])]];
      [exact Hc | rewrite E in H; discriminate H ..].
Qed.

(** X6.  The proactive entry point never replies: whatever the client
    does, none of its calls is [sendC2CMessage] or [sendGroupMessage], and
    none carries a [msgId]. *)
Theorem sendProactiveMessage_never_replies (account : ResolvedQQBotAccount)
    (to text : string) (w : W) (ev : ApiEvent) :
  In ev (snd (sendProactiveMessage client account to text w)) ->
  is_passive_only (event_call ev) = false /\ msgId_of (event_call ev) = None.
Proof.
  run_async. repeat split_match; cbn;
    intros H; repeat (destruct H as [<- | H]; [cbn; auto |]); destruct H.
Qed.

End DispatchShape.

Lemma sendProactiveMessage_never_replies_witness :
  snd (sendProactiveMessage answering_client configured_account "channel:C1" "hi" 0)
  = [mkEvent (GetAccessToken "102146862" "secret") None;
     mkEvent (SendChannelMessage "token" "C1" "hi" None) None]
  /\ msgId_of (SendChannelMessage "token" "C1" "hi" None) = None.
Proof.
  split; [reflexivity |].
  exact (proj2 (sendProactiveMessage_never_replies answering_client configured_account
                  "channel:C1" "hi" 0
                  (mkEvent (SendChannelMessage "token" "C1" "hi" None) None)
                  (or_intror (or_introl eq_refl)))).
Defined.

(** ** The host-facing [outbound.sendText] *)

Section HostOutboundProperties.

Context {W Cfg : Type} (client : PlatformClient W).

Variable resolveQQBotAccount : Cfg -> option string -> ResolvedQQBotAccount.

(** X7.  The host-facing [sendText] completes normally, passes the
    [messageId] of the dispatcher on and never sets [messageId] and [error]
    together; its [error] is an [Error] with a non-empty message.  An empty
    message is dropped: when a call threw an exception whose message is
    empty, the host gets neither [messageId] nor [error]. *)
Theorem outbound_sendText_result (to text : string)
    (accountId replyToId : option string) (cfg : Cfg) (w : W) :
  exists result w' calls,
    outbound_sendText client resolveQQBotAccount to text accountId replyToId cfg w
    = (Normal result, w', calls)
    /\ host_channel result = "qqbot"
    /\ ((exists m, host_messageId result = Some m /\ host_error result = None)
        \/ (exists m, host_messageId result = None
                      /\ host_error result = Some (ThrownError m) /\ m <> "")
        \/ (host_messageId result = None /\ host_error result = None
            /\ exists call e, In (mkEvent call (Some e)) calls
                              /\ message_of e = "")).
Proof.
  unfold outbound_sendText, Async.bind, Async.ret.
  set (ctx := mkContext to text accountId replyToId
                (resolveQQBotAccount cfg accountId)).
  assert (F : forall e,
             (exists m, Some (message_of e) = Some m
                        /\ (if Js.truthy (Some m) then Some (ThrownError m) else None)
                           = Some (ThrownError m) /\ m <> "")
             \/ (message_of e = ""
                 /\ (if Js.truthy (Some (message_of e))
                     then Some (ThrownError (message_of e)) else None) = None)).
  { intros e. unfold Js.truthy.
    destruct (String.eqb_spec (message_of e) "") as [E | N]; cbn.
    - right. rewrite E. auto.
    - left. exists (message_of e). destruct (String.eqb_spec (message_of e) "");
        [contradiction | auto]. }
  destruct (sendText_cases client ctx w)
    as [[_ E] | [(a & s & e & w1 & _ & _ & E)
                | (a & s & t & w1 & call & w2 & _ & _ & _ & [[r E] | [e E]])]];
    rewrite E; cbn [not_configured failed sent res_messageId res_error];
    do 3 eexists; (split; [reflexivity |]); (split; [reflexivity |]);
    cbn [host_messageId host_error].
  - right. left. eexists. split; [reflexivity |]. split; [reflexivity | discriminate].
  - destruct (F e) as [(m & Hm & Ht & Nm) | (Hm & Ht)].
    + right. left. injection Hm as <-. exists (message_of e).
      rewrite Ht. auto.
    + right. right. rewrite Ht. repeat split; auto.
      exists (GetAccessToken a s), e. cbn. auto.
  - left. eexists. split; reflexivity.
  - destruct (F e) as [(m & Hm & Ht & Nm) | (Hm & Ht)].
    + right. left. injection Hm as <-. exists (message_of e).
      rewrite Ht. auto.
    + right. right. rewrite Ht. repeat split; auto.
      exists call, e. cbn. auto.
Qed.

End HostOutboundProperties.

(** An exception without message, seen from the host. *)
Example outbound_sendText_empty_message :
  outbound_sendText mute_client (fun (_ : unit) _ => configured_account)
    "c2c:ABCD1234" "hi" None None tt 0
  = (Normal (mkHostResult "qqbot" None None), 1,
     [mkEvent (GetAccessToken "102146862" "secret") (Some (ThrownError ""))]).
Proof. reflexivity. Qed.

(** ** From the address to the platform call *)

(** The id of an address of one of the four shapes. *)
Lemma parseTarget_address_id (p id to : string) :
  Grammar.channel_prefix p ->
  to = p ++ "c2c:" ++ id \/ to = p ++ "group:" ++ id \/ to = p ++ "channel:" ++ id
  \/ (to = p ++ id /\ Grammar.hex32 id) ->
  target_id (parseTarget to) = id.
Proof.
  intros Hp Hto.
  assert (S : forall s, strip_qqbot s = s -> parseTarget (p ++ s) = parseTarget s).
  { intros s Hs. apply parseTarget_strip. rewrite Hs.
    destruct Hp as [-> | Hp]; [exact Hs | now apply strip_qqbot_prefixed]. }
  assert (T : forall tag ty,
             In (tag, ty) [("c2c:", c2c); ("group:", group); ("channel:", channel)] ->
             strip_qqbot (tag ++ id) = tag ++ id ->
             target_id (parseTarget (p ++ tag ++ id)) = id).
  { intros tag ty Hin Hs. rewrite (S _ Hs), (parseTarget_tagged tag id ty Hin Hs).
    reflexivity. }
  destruct Hto as [-> | [-> | [-> | [-> [_ Hh]]]]].
  - apply (T "c2c:" c2c); [simpl; auto | apply strip_qqbot_other; reflexivity].
  - apply (T "group:" group); [simpl; auto | apply strip_qqbot_other; reflexivity].
  - apply (T "channel:" channel); [simpl; auto | apply strip_qqbot_other; reflexivity].
  - apply all_chars_every in Hh.
    rewrite (S _ (strip_qqbot_hex id Hh)), (parseTarget_hex id Hh). reflexivity.
Qed.

(** X8.  For a configured account whose token is issued and an address of
    one of the four shapes, with or without the prefix [qqbot:], the one send
    [sendText] makes goes to exactly the id embedded in the address (prefix
    and tag removed), with the issued token and the text unchanged, whether
    or not a [replyToId] is given. *)
Theorem sendText_recipient {W : Type} (client : PlatformClient W)
    (p id to text : string) (accountId replyToId : option string)
    (account : ResolvedQQBotAccount) (w : W)
    (appId clientSecret accessToken : string) (w1 : W) :
  Grammar.channel_prefix p ->
  to = p ++ "c2c:" ++ id \/ to = p ++ "group:" ++ id \/ to = p ++ "channel:" ++ id
  \/ (to = p ++ id /\ Grammar.hex32 id) ->
  acct_appId account = Some appId -> appId <> "" ->
  acct_clientSecret account = Some clientSecret -> clientSecret <> "" ->
  api_getAccessToken client appId clientSecret w = (Normal accessToken, w1) ->
  exists call,
    calls_made (sendText client (mkContext to text accountId replyToId account) w)
    = [GetAccessToken appId clientSecret; call]
    /\ is_send accessToken id text call.
Proof.
  intros Hp Hto Ha Na Hs Ns Htok.
  assert (Hc : credentials account = Some (appId, clientSecret))
    by (apply credentials_Some; auto).
  pose proof (parseTarget_address_id p id to Hp Hto) as Hid.
  destruct (sendText_cases client (mkContext to text accountId replyToId account) w)
    as [[Hn _] | [(a & s & e & w2 & Hc' & Htok' & _)
                 | (a & s & t & w2 & call & w3 & Hc' & Htok' & Hsend & E)]];
    cbn [ctx_account ctx_to ctx_text] in *.
  - congruence.
  - rewrite Hc in Hc'. injection Hc' as <- <-. congruence.
  - rewrite Hc in Hc'. injection Hc' as <- <-.
    rewrite Htok in Htok'. injection Htok' as <- <-.
    rewrite Hid in Hsend. exists call. split; [| exact Hsend].
    unfold calls_made. destruct E as [[r ->] | [e ->]]; reflexivity.
Qed.

Lemma sendText_recipient_witness :
  exists call,
    calls_made
      (sendText answering_client
         (mkContext "QQBot:channel:C1" "hi" None (Some "msg-42") configured_account) 0)
    = [GetAccessToken "102146862" "secret"; call]
    /\ is_send "token" "C1" "hi" call.
Proof.
  assert (P : Grammar.channel_prefix "QQBot:") by (right; reflexivity).
  assert (N1 : "102146862" <> "") by discriminate.
  assert (N2 : "secret" <> "") by discriminate.
  exact (sendText_recipient answering_client "QQBot:" "C1" "QQBot:channel:C1" "hi"
           None (Some "msg-42") configured_account 0 "102146862" "secret" "token" 1
           P (or_intror (or_intror (or_introl eq_refl))) eq_refl N1 eq_refl N2 eq_refl).
Defined.

(** ** The status the callbacks write *)

Lemma after_callbacks_app (cbs1 cbs2 : list GatewayCallback)
    (status : ChannelAccountSnapshot) :
  after_callbacks (cbs1 ++ cbs2) status
  = after_callbacks cbs2 (after_callbacks cbs1 status).
Proof. unfold after_callbacks. apply fold_left_app. Qed.

(** X9.  The callbacks only ever switch the two flags on: after any
    sequence of them, [running] and [connected] are [true] if an [onReady]
    occurred and are what they were before otherwise (an [onError] never
    resets them), and the descriptive fields of the status are untouched. *)
Theorem callbacks_only_switch_on (cbs : list GatewayCallback)
    (status : ChannelAccountSnapshot) :
  let after := after_callbacks cbs status in
  snap_running after
  = (if existsb is_ready cbs then Some true else snap_running status)
  /\ snap_connected after
     = (if existsb is_ready cbs then Some true else snap_connected status)
  /\ snap_accountId after = snap_accountId status
  /\ snap_name after = snap_name status
  /\ snap_enabled after = snap_enabled status
  /\ snap_configured after = snap_configured status
  /\ snap_tokenSource after = snap_tokenSource status.
Proof.
  unfold after_callbacks. revert status.
  induction cbs as [|cb cbs IH]; intros status; cbn [fold_left existsb].
  - repeat split.
  - destruct (IH (callback status cb)) as (R & C & A & N & E & F & T).
    cbv zeta in *. rewrite R, C, A, N, E, F, T.
    destruct cb as [now | message]; cbn.
    + destruct (existsb is_ready cbs); repeat split.
    + repeat split.
Qed.

(** X10.  [lastConnectedAt] is the clock reading of the last [onReady] and
    [lastError] the message of the last [onError]; neither callback clears
    what the other one wrote, so a status can be connected and still carry
    the last error. *)
Theorem callbacks_keep_last (cbs1 cbs2 : list GatewayCallback)
    (status : ChannelAccountSnapshot) (now : Z) (message : string) :
  (forallb (fun cb => negb (is_ready cb)) cbs2 = true ->
   snap_lastConnectedAt (after_callbacks (cbs1 ++ Ready now :: cbs2) status)
   = Some now)
  /\ (forallb is_ready cbs2 = true ->
      snap_lastError (after_callbacks (cbs1 ++ Error message :: cbs2) status)
      = Some message).
Proof.
  assert (K : forall cbs s,
             (forallb (fun cb => negb (is_ready cb)) cbs = true ->
              snap_lastConnectedAt (after_callbacks cbs s) = snap_lastConnectedAt s)
             /\ (forallb is_ready cbs = true ->
                 snap_lastError (after_callbacks cbs s) = snap_lastError s)).
  { unfold after_callbacks.
    induction cbs as [|cb cbs IH]; intros s; cbn [fold_left forallb]; [auto |].
    destruct (IH (callback s cb)) as [A B].
    destruct cb as [t | m]; cbn in *; split; intros H; try discriminate H.
    - now rewrite B.
    - now rewrite A. }
  split; intros H; rewrite after_callbacks_app;
    change (after_callbacks (?cb :: cbs2) ?s)
      with (after_callbacks cbs2 (callback s cb)).
  - now rewrite (proj1 (K cbs2 _) H).
  - now rewrite (proj2 (K cbs2 _) H).
Qed.

Lemma callbacks_keep_last_witness :
  after_callbacks [Ready 10; Error "socket closed"; Ready 20] defaultRuntime
  = mkSnapshot "default" None None None None (Some true) (Some true)
      (Some 20%Z) (Some "socket closed")
  /\ snap_lastError
       (after_callbacks ([Ready 10] ++ Error "socket closed" :: [Ready 20])
          defaultRuntime)
     = Some "socket closed".
Proof.
  split; [reflexivity |].
  exact (proj2 (callbacks_keep_last [Ready 10] [Ready 20] defaultRuntime 0
                  "socket closed") eq_refl).
Defined.

(** ** Setup *)

Lemma split_colon_length (s : string) :
  List.length (split_colon s) = S (colons s).
Proof.
  induction s as [|c s IH]; cbn [split_colon colons]; [reflexivity |].
  destruct (Ascii.eqb c ":"); cbn.
  - now rewrite IH.
  - destruct (split_colon s); cbn in *; [discriminate IH | exact IH].
Qed.

Lemma split_colon_whole (a : string) : colons a = 0 -> split_colon a = [a].
Proof.
  induction a as [|c a IH]; cbn [split_colon colons]; [reflexivity |].
  destruct (Ascii.eqb c ":"); cbn; [discriminate |].
  intros H. now rewrite (IH H).
Qed.

Lemma split_colon_first (a b : string) :
  colons a = 0 -> split_colon (a ++ String ":" b) = a :: split_colon b.
Proof.
  induction a as [|c a IH]; cbn [split_colon colons append].
  - reflexivity.
  - destruct (Ascii.eqb c ":"); cbn; [discriminate |].
    intros H. now rewrite (IH H).
Qed.

Section Setup.

Context {Cfg : Type} (applyQQBotAccountConfig : Cfg -> string -> AccountPatch -> Cfg).

(** X11.  A token [appId:clientSecret] whose two parts hold no colon is
    taken apart at its colon: [applyAccountConfig] hands exactly these two
    parts on as [appId] and [clientSecret], with the token file, name and
    image server URL of the input. *)
Theorem applyAccountConfig_splits_token (cfg : Cfg) (accountId : string)
    (input : SetupInput) (appId clientSecret : string) :
  in_token input = Some (appId ++ ":" ++ clientSecret) ->
  colons appId = 0 -> colons clientSecret = 0 ->
  applyAccountConfig applyQQBotAccountConfig cfg accountId input
  = applyQQBotAccountConfig cfg accountId
      (mkPatch appId clientSecret (in_tokenFile input) (in_name input)
         (in_imageServerBaseUrl input)).
Proof.
  intros Ht Ha Hs. unfold applyAccountConfig, token_credentials. rewrite Ht.
  assert (T : Js.truthy (Some (appId ++ ":" ++ clientSecret)) = true)
    by (destruct appId; reflexivity).
  rewrite T.
  change (appId ++ ":" ++ clientSecret) with (appId ++ String ":" clientSecret).
  rewrite (split_colon_first _ _ Ha), (split_colon_whole _ Hs). reflexivity.
Qed.

(** X12.  A token that does not hold exactly one colon (none, or a colon
    inside the secret) is not refused: [validateInput] accepts every
    non-empty token, and [applyAccountConfig] then hands on an empty [appId]
    and an empty [clientSecret]; so it does when the token is absent. *)
Theorem applyAccountConfig_drops_token (cfg : Cfg) (accountId : string)
    (input : SetupInput) :
  (forall t, in_token input = Some t -> colons t <> 1) ->
  applyAccountConfig applyQQBotAccountConfig cfg accountId input
  = applyQQBotAccountConfig cfg accountId
      (mkPatch "" "" (in_tokenFile input) (in_name input)
         (in_imageServerBaseUrl input))
  /\ (Js.truthy (in_token input) = true -> validateInput input = None).
Proof.
  intros H. split.
  - unfold applyAccountConfig, token_credentials.
    destruct (in_token input) as [t|]; [| reflexivity].
    specialize (H t eq_refl). pose proof (split_colon_length t) as L.
    destruct (Js.truthy (Some t)); [| reflexivity].
    destruct (split_colon t) as [|x [|y [|z l]]]; try reflexivity.
    cbn in L. elim H. lia.
  - intros T. unfold validateInput. now rewrite T.
Qed.

End Setup.

Lemma applyAccountConfig_splits_token_witness :
  applyAccountConfig (fun (cfg : list AccountPatch) (_ : string) patch => patch :: cfg)
    [] "default" (mkSetupInput (Some "102146862:secret") None None (Some "bot") None)
  = [mkPatch "102146862" "secret" None (Some "bot") None].
Proof.
  exact (applyAccountConfig_splits_token
           (fun (cfg : list AccountPatch) (_ : string) patch => patch :: cfg)
           [] "default"
           (mkSetupInput (Some "102146862:secret") None None (Some "bot") None)
           "102146862" "secret" eq_refl eq_refl eq_refl).
Defined.

Lemma applyAccountConfig_drops_token_witness :
  validateInput (mkSetupInput (Some "102146862:se:cret") None None None None) = None
  /\ applyAccountConfig (fun (cfg : list AccountPatch) (_ : string) patch => patch :: cfg)
       [] "default" (mkSetupInput (Some "102146862:se:cret") None None None None)
     = [mkPatch "" "" None None None].
Proof.
  assert (H : forall t,
             in_token (mkSetupInput (Some "102146862:se:cret") None None None None)
             = Some t -> colons t <> 1)
    by (intros t E; injection E as <-; discriminate).
  destruct (applyAccountConfig_drops_token
              (fun (cfg : list AccountPatch) (_ : string) patch => patch :: cfg)
              [] "default"
              (mkSetupInput (Some "102146862:se:cret") None None None None) H)
    as [A V].
  split; [exact (V eq_refl) | exact A].
Defined.

(** ** The configuration the onboarding adapter writes *)

Section OnboardingProperties.

Import Onboarding.

Context {Json : Type}.

Lemma qqbot_block_with_qqbot (cfg : @MoltbotConfig Json) (q : QQBotChannelConfig) :
  qqbot_block (with_qqbot cfg q) = q.
Proof. reflexivity. Qed.

Lemma with_qqbot_twice (cfg : @MoltbotConfig Json) (q q' : QQBotChannelConfig) :
  with_qqbot (with_qqbot cfg q) q' = with_qqbot cfg q'.
Proof. reflexivity. Qed.

(** X13.  [disable] switches the channel off and nothing else: the
    credentials, the secret file, the name, the image server URL, the
    accounts and every key outside of the channel block are what they were.
    Disabling twice is disabling once, and disabling after the enabling of
    [configure] is disabling. *)
Theorem disable_keeps_settings (cfg : @MoltbotConfig Json) :
  let q := qqbot_block cfg in
  let d := qqbot_block (disable cfg) in
  qq_enabled d = Some false
  /\ (qq_appId d, qq_clientSecret d, qq_clientSecretFile d, qq_name d,
      qq_imageServerBaseUrl d, qq_accounts d)
     = (qq_appId q, qq_clientSecret q, qq_clientSecretFile q, qq_name q,
        qq_imageServerBaseUrl q, qq_accounts q)
  /\ cfg_rest (disable cfg) = cfg_rest cfg
  /\ (forall ch, cfg_channels cfg = Some ch ->
      exists ch', cfg_channels (disable cfg) = Some ch' /\ ch_rest ch' = ch_rest ch)
  /\ disable (disable cfg) = disable cfg
  /\ disable (enable cfg) = disable cfg.
Proof.
  repeat split. intros ch H. unfold disable, with_qqbot. rewrite H.
  eexists. split; reflexivity.
Qed.

Lemma account_entry_set (q : QQBotChannelConfig) (accountId id : string)
    (e : AccountEntry) (en : option bool) (a c f n u : option string) :
  account_entry (mkQQBot en a c f n u (Some (set_account q accountId e))) id
  = if String.eqb id accountId then e else account_entry q id.
Proof.
  unfold account_entry, set_account. cbn [qq_accounts].
  destruct (String.eqb id accountId); [reflexivity |].
  destruct (qq_accounts q); reflexivity.
Qed.

Lemma truthy_Some (o : option string) :
  Js.truthy o = true -> exists s, o = Some s /\ s <> "".
Proof.
  destruct o as [s|]; cbn; [| discriminate].
  destruct (String.eqb_spec s ""); cbn; [discriminate |]. eauto.
Qed.

(** X14.  Entered credentials go to the place the account id names, and
    only there.  For ["default"] they are written at the root of the channel
    block and no account entry changes; for any other id they are written to
    that account's entry, the root credentials and every other entry stay as
    they were.  Either way the channel is enabled, and the name and the
    secret file next to the written credentials are kept. *)
Theorem apply_entered_routes (cfg : @MoltbotConfig Json) (accountId : string)
    (appId clientSecret imageServerBaseUrl : option string) :
  Js.truthy appId = true -> Js.truthy clientSecret = true ->
  let q := qqbot_block cfg in
  let q' := qqbot_block (apply_entered cfg accountId appId clientSecret imageServerBaseUrl) in
  qq_enabled q' = Some true
  /\ (accountId = "default" ->
      qq_appId q' = appId /\ qq_clientSecret q' = clientSecret
      /\ qq_name q' = qq_name q /\ qq_clientSecretFile q' = qq_clientSecretFile q
      /\ qq_accounts q' = qq_accounts q)
  /\ (accountId <> "default" ->
      qq_appId q' = qq_appId q /\ qq_clientSecret q' = qq_clientSecret q
      /\ qq_name q' = qq_name q /\ qq_clientSecretFile q' = qq_clientSecretFile q
      /\ qq_imageServerBaseUrl q' = qq_imageServerBaseUrl q
      /\ entry_enabled (account_entry q' accountId) = Some true
      /\ entry_appId (account_entry q' accountId) = appId
      /\ entry_clientSecret (account_entry q' accountId) = clientSecret
      /\ entry_name (account_entry q' accountId)
         = entry_name (account_entry q accountId)
      /\ entry_clientSecretFile (account_entry q' accountId)
         = entry_clientSecretFile (account_entry q accountId)
      /\ forall id, id <> accountId -> account_entry q' id = account_entry q id).
Proof.
  intros Ha Hs q q'. subst q q'. unfold apply_entered. rewrite Ha, Hs. cbn [andb].
  unfold DEFAULT_ACCOUNT_ID.
  destruct (String.eqb_spec accountId "default") as [E | N];
    rewrite qqbot_block_with_qqbot; cbn [qq_enabled qq_appId qq_clientSecret qq_name
      qq_clientSecretFile qq_accounts qq_imageServerBaseUrl].
  - split; [reflexivity |]. split; [intros _; repeat split | intros N; now elim N].
  - split; [reflexivity |]. split; [intros E; now elim N |]. intros _.
    repeat match goal with |- _ /\ _ => split end;
      try reflexivity;
      try (unfold account_entry at 1; cbn [qq_accounts]; unfold set_account;
           rewrite String.eqb_refl; reflexivity).
    intros id Hid. unfold account_entry, set_account. cbn [qq_accounts].
    destruct (String.eqb_spec id accountId) as [E' | _]; [now elim Hid |].
    destruct (qq_accounts (qqbot_block cfg)); reflexivity.
Qed.

Lemma same_accounts_refl (a : option (string -> option AccountEntry)) :
  same_accounts a a.
Proof. destruct a; cbn; auto. Qed.

Lemma same_config_refl (cfg : @MoltbotConfig Json) : same_config cfg cfg.
Proof.
  unfold same_config. split; [reflexivity |].
  destruct (cfg_channels cfg) as [ch|]; [| exact I].
  split; [reflexivity |].
  destruct (ch_qqbot ch) as [q|]; [| exact I].
  repeat split. apply same_accounts_refl.
Qed.

Lemma image_or_twice (imageServerBaseUrl old : option string) :
  image_or imageServerBaseUrl (image_or imageServerBaseUrl old)
  = image_or imageServerBaseUrl old.
Proof. unfold image_or. destruct (Js.truthy imageServerBaseUrl); reflexivity. Qed.

(** X15.  Applying what was entered a second time changes nothing: the
    configuration after two applications has the same fields, and the same
    entry under every account id, as after one. *)
Theorem apply_entered_idempotent (cfg : @MoltbotConfig Json) (accountId : string)
    (appId clientSecret imageServerBaseUrl : option string) :
  same_config
    (apply_entered
       (apply_entered cfg accountId appId clientSecret imageServerBaseUrl)
       accountId appId clientSecret imageServerBaseUrl)
    (apply_entered cfg accountId appId clientSecret imageServerBaseUrl).
Proof.
  unfold apply_entered.
  destruct (Js.truthy appId && Js.truthy clientSecret);
    [| destruct (Js.truthy imageServerBaseUrl) eqn:Hi; [| apply same_config_refl]];
    destruct (String.eqb accountId DEFAULT_ACCOUNT_ID);
    rewrite qqbot_block_with_qqbot, with_qqbot_twice;
    unfold same_config, with_qqbot;
    cbn [cfg_rest cfg_channels ch_rest ch_qqbot qq_enabled qq_appId qq_clientSecret
         qq_clientSecretFile qq_name qq_imageServerBaseUrl qq_accounts same_accounts];
    rewrite ?image_or_twice;
    repeat match goal with |- _ /\ _ => split end;
    try reflexivity; try apply same_accounts_refl.
  all: intros id; unfold account_entry, set_account; cbn [qq_accounts];
    rewrite String.eqb_refl;
    cbn [entry_enabled entry_appId entry_clientSecret entry_clientSecretFile
         entry_name entry_imageServerBaseUrl];
    rewrite ?image_or_twice;
    destruct (String.eqb id accountId); reflexivity.
Qed.

(** X16.  [configure] writes credentials only when both entered values are
    non-empty, and an image server URL only when one was entered: otherwise
    the credentials and the [enabled] flag at the root and in every account
    entry, respectively the image server URLs, are what they were.  When
    nothing was entered the configuration is handed back as it is. *)
Theorem apply_entered_never_clears (cfg : @MoltbotConfig Json) (accountId : string)
    (appId clientSecret imageServerBaseUrl : option string) :
  let q := qqbot_block cfg in
  let q' := qqbot_block (apply_entered cfg accountId appId clientSecret imageServerBaseUrl) in
  (Js.truthy appId && Js.truthy clientSecret = false ->
   qq_enabled q' = qq_enabled q
   /\ qq_appId q' = qq_appId q /\ qq_clientSecret q' = qq_clientSecret q
   /\ forall id,
        entry_enabled (account_entry q' id) = entry_enabled (account_entry q id)
        /\ entry_appId (account_entry q' id) = entry_appId (account_entry q id)
        /\ entry_clientSecret (account_entry q' id)
           = entry_clientSecret (account_entry q id))
  /\ (Js.truthy imageServerBaseUrl = false ->
      qq_imageServerBaseUrl q' = qq_imageServerBaseUrl q
      /\ forall id,
           entry_imageServerBaseUrl (account_entry q' id)
           = entry_imageServerBaseUrl (account_entry q id))
  /\ (Js.truthy appId && Js.truthy clientSecret = false ->
      Js.truthy imageServerBaseUrl = false ->
      apply_entered cfg accountId appId clientSecret imageServerBaseUrl = cfg).
Proof.
  intros q q'. subst q q'. unfold apply_entered.
  split; [| split].
  - intros ->. destruct (Js.truthy imageServerBaseUrl); [| repeat split];
      destruct (String.eqb accountId DEFAULT_ACCOUNT_ID);
      rewrite qqbot_block_with_qqbot; cbn [qq_enabled qq_appId qq_clientSecret];
      repeat match goal with |- _ /\ _ => split end; try reflexivity;
      intros id; rewrite ?account_entry_set;
      try (repeat split; fail);
      destruct (String.eqb_spec id accountId) as [-> | _];
      cbn [entry_enabled entry_appId entry_clientSecret]; repeat split.
  - intros Hi. rewrite Hi.
    destruct (Js.truthy appId && Js.truthy clientSecret); [| repeat split];
      destruct (String.eqb accountId DEFAULT_ACCOUNT_ID);
      rewrite qqbot_block_with_qqbot; cbn [qq_imageServerBaseUrl];
      unfold image_or; rewrite ?Hi;
      repeat match goal with |- _ /\ _ => split end; try reflexivity;
      intros id; rewrite ?account_entry_set;
      try reflexivity;
      destruct (String.eqb_spec id accountId) as [-> | _];
      cbn [entry_imageServerBaseUrl]; reflexivity.
  - intros -> ->. reflexivity.
Qed.

End OnboardingProperties.

Lemma apply_entered_routes_witness :
  let q' :=
    Onboarding.qqbot_block
      (Onboarding.apply_entered sample_config "work"
         (Some "102146862") (Some "secret") None) in
  Onboarding.qq_appId q' = Some "1"
  /\ Onboarding.account_entry q' "work"
     = Onboarding.mkEntry (Some true) (Some "102146862") (Some "secret")
         (Some "/run/secret") (Some "work bot") None.
Proof.
  intros q'.
  destruct (apply_entered_routes sample_config "work"
              (Some "102146862") (Some "secret") None eq_refl eq_refl)
    as (_ & _ & H).
  assert (N : "work" <> "default") by discriminate.
  destruct (H N) as (A & _).
  split; [exact A | reflexivity].
Defined.

(** ** The wizard *)

Ltac split_match_in H :=
  match type of H with
  | context [match ?x with _ => _ end] =>
      lazymatch x with
      | context [match _ with _ => _ end] => fail
      | _ => destruct x eqn:?
      end
  end.

(** Every completed run of the wizard, path by path. *)
Ltac wizard_paths H :=
  unfold Wizard.configure, Wizard.enter_credentials, Wizard.text, Wizard.select,
    Wizard.note, Wizard.confirm, Wizard.bind, Wizard.ask, Wizard.ret in H;
  repeat split_match_in H; try discriminate H;
  cbn [fst snd app] in H; injection H as <- <- <- <-.

Section WizardProperties.

Import Onboarding Wizard.

Context {Json P : Type}.

Variable listQQBotAccountIds : @MoltbotConfig Json -> list string.
Variable resolveQQBotAccount : @MoltbotConfig Json -> string -> Resolved.
Variable trim : string -> string.
Variable env : Env.
Variable prompter : Prompter P.

Lemma same_surroundings_refl (cfg : @MoltbotConfig Json) : same_surroundings cfg cfg.
Proof. split; [reflexivity |]. intros ch H. eauto. Qed.

Lemma same_surroundings_with_qqbot (cfg : @MoltbotConfig Json) (q : QQBotChannelConfig) :
  same_surroundings cfg (with_qqbot cfg q).
Proof.
  split; [reflexivity |]. intros ch H. unfold with_qqbot. rewrite H.
  eexists. split; reflexivity.
Qed.

Lemma same_surroundings_trans (a b c : @MoltbotConfig Json) :
  same_surroundings a b -> same_surroundings b c -> same_surroundings a c.
Proof.
  intros [R1 C1] [R2 C2]. split; [congruence |].
  intros ch H. destruct (C1 ch H) as (ch1 & H1 & E1).
  destruct (C2 ch1 H1) as (ch2 & H2 & E2). exists ch2. split; congruence.
Qed.

Lemma same_surroundings_apply_entered (next : @MoltbotConfig Json) (accountId : string)
    (appId clientSecret imageServerBaseUrl : option string) :
  same_surroundings next
    (apply_entered next accountId appId clientSecret imageServerBaseUrl).
Proof.
  unfold apply_entered.
  destruct (Js.truthy appId && Js.truthy clientSecret);
    [| destruct (Js.truthy imageServerBaseUrl); [| apply same_surroundings_refl]];
    destruct (String.eqb accountId DEFAULT_ACCOUNT_ID);
    apply same_surroundings_with_qqbot.
Qed.

(** X17.  Whatever the user answers, a completed [configure] hands back a
    configuration that differs from the given one inside the qqbot block
    only: the other top-level keys and the other channels are what they
    were. *)
Theorem configure_touches_only_qqbot (cfg : @MoltbotConfig Json)
    (override : option string) (shouldPromptAccountIds : bool) (p : P)
    (cfg' : @MoltbotConfig Json) (accountId : string) (p' : P) (shown : list Prompt) :
  configure listQQBotAccountIds resolveQQBotAccount trim env prompter
    cfg override shouldPromptAccountIds p
  = (Normal (cfg', accountId), p', shown) ->
  same_surroundings cfg cfg'.
Proof.
  intros H. wizard_paths H;
    first [ apply same_surroundings_apply_entered
          | eapply same_surroundings_trans;
            [apply same_surroundings_with_qqbot
            | apply same_surroundings_apply_entered] ].
Qed.

(** X18.  Unless the user typed something, [configure] changes nothing but
    the [enabled] flag: when a completed run showed no text prompt, the
    configuration is handed back as it was, or enabled, and enabled only
    after the user was asked whether to use the credentials of the
    environment. *)
Theorem configure_changes_nothing_unless_typed (cfg : @MoltbotConfig Json)
    (override : option string) (shouldPromptAccountIds : bool) (p : P)
    (cfg' : @MoltbotConfig Json) (accountId : string) (p' : P) (shown : list Prompt) :
  configure listQQBotAccountIds resolveQQBotAccount trim env prompter
    cfg override shouldPromptAccountIds p
  = (Normal (cfg', accountId), p', shown) ->
  forallb (fun pr => negb (is_text pr)) shown = true ->
  cfg' = cfg
  \/ (cfg' = enable cfg /\ In (Confirm UseEnvCredentials true) shown).
Proof.
  intros H. wizard_paths H; cbn; intros T; try discriminate T;
    first [ now left | right; split; [reflexivity | cbn; auto 10] ].
Qed.


Lemma apply_entered_without_credentials (next : @MoltbotConfig Json)
    (accountId : string) (imageServerBaseUrl : option string) (id : string) :
  let q := qqbot_block next in
  let q' := qqbot_block (apply_entered next accountId None None imageServerBaseUrl) in
  qq_appId q' = qq_appId q /\ qq_clientSecret q' = qq_clientSecret q
  /\ entry_appId (account_entry q' id) = entry_appId (account_entry q id)
  /\ entry_clientSecret (account_entry q' id)
     = entry_clientSecret (account_entry q id).
Proof.
  cbv zeta. unfold apply_entered. cbn [Js.truthy andb].
  destruct (Js.truthy imageServerBaseUrl); [| repeat split].
  destruct (String.eqb accountId DEFAULT_ACCOUNT_ID);
    rewrite qqbot_block_with_qqbot; cbn [qq_appId qq_clientSecret];
    [repeat split |].
  rewrite account_entry_set.
  destruct (String.eqb_spec id accountId) as [-> | _]; repeat split.
Qed.

(** X20.  The wizard asks for the app id and for the secret together or not
    at all, and at most once; and it writes credentials only when it asked
    for them: when a completed run showed no app id prompt, [appId] and
    [clientSecret] at the root and in every account entry are what they
    were. *)
Theorem configure_credentials (cfg : @MoltbotConfig Json)
    (override : option string) (shouldPromptAccountIds : bool) (p : P)
    (cfg' : @MoltbotConfig Json) (accountId : string) (p' : P) (shown : list Prompt) :
  configure listQQBotAccountIds resolveQQBotAccount trim env prompter
    cfg override shouldPromptAccountIds p
  = (Normal (cfg', accountId), p', shown) ->
  List.length (filter asks_app_id shown) = List.length (filter asks_secret shown)
  /\ List.length (filter asks_app_id shown) <= 1
  /\ (forallb (fun pr => negb (asks_app_id pr)) shown = true ->
      qq_appId (qqbot_block cfg') = qq_appId (qqbot_block cfg)
      /\ qq_clientSecret (qqbot_block cfg') = qq_clientSecret (qqbot_block cfg)
      /\ forall id,
           entry_appId (account_entry (qqbot_block cfg') id)
           = entry_appId (account_entry (qqbot_block cfg) id)
           /\ entry_clientSecret (account_entry (qqbot_block cfg') id)
              = entry_clientSecret (account_entry (qqbot_block cfg) id)).
Proof.
  intros H. wizard_paths H;
    (split; [reflexivity |]); (split; [cbn; lia |]);
    cbn [forallb asks_app_id negb andb app]; intros T; try discriminate T;
    match goal with
    | |- context [apply_entered ?next ?a None None ?i] =>
        pose proof (apply_entered_without_credentials next a i) as K;
        cbv zeta in K
    end;
    (split; [apply (K ""%string) |]); (split; [apply (K ""%string) |]);
    intros id; destruct (K id) as (_ & _ & A & B); auto.
Qed.

End WizardProperties.

(** *** A run of the wizard *)

Example configure_typing_run :
  Wizard.configure (fun _ => ["default"; "work"]) (fun _ _ => sample_resolved)
    (fun s => s) (Wizard.mkEnv None None None) typing_prompter
    sample_config None true 0
  = (Normal (Onboarding.apply_entered sample_config "work"
               (Some "102146862") (Some "secret") None, "work"),
     5,
     [Wizard.Select [Wizard.mkOption "default" Wizard.DefaultAccountLabel;
                     Wizard.mkOption "work" (Wizard.IdLabel "work")] "default";
      Wizard.Confirm Wizard.KeepCurrentConfig true;
      Wizard.Text Wizard.AppIdField (Some "1");
      Wizard.Text Wizard.ClientSecretField None;
      Wizard.Confirm Wizard.EnableImageSupport false]).
Proof. reflexivity. Qed.

Lemma configure_touches_only_qqbot_witness :
  same_surroundings sample_config
    (Onboarding.apply_entered sample_config "work"
       (Some "102146862") (Some "secret") None).
Proof.
  exact (configure_touches_only_qqbot
           (fun _ => ["default"; "work"]) (fun _ _ => sample_resolved)
           (fun s => s) (Wizard.mkEnv None None None) typing_prompter
           sample_config None true 0 _ "work" 5 _ eq_refl).
Defined.

Lemma configure_changes_nothing_unless_typed_witness :
  sample_config = sample_config
  \/ (sample_config = Onboarding.enable sample_config
      /\ In (Wizard.Confirm Wizard.UseEnvCredentials true)
           [Wizard.Select [Wizard.mkOption "default" Wizard.DefaultAccountLabel;
                           Wizard.mkOption "work" (Wizard.IdLabel "work")] "default";
            Wizard.Confirm Wizard.KeepCurrentConfig true;
            Wizard.Confirm Wizard.EnableImageSupport false]).
Proof.
  exact (configure_changes_nothing_unless_typed
           (fun _ => ["default"; "work"]) (fun _ _ => sample_resolved)
           (fun s => s) (Wizard.mkEnv None None None) confirming_prompter
           sample_config None true 0 sample_config "default" 3 _ eq_refl eq_refl).
Defined.


Lemma configure_credentials_witness :
  List.length (filter asks_app_id
                 [Wizard.Select [Wizard.mkOption "default" Wizard.DefaultAccountLabel;
                                 Wizard.mkOption "work" (Wizard.IdLabel "work")] "default";
                  Wizard.Confirm Wizard.KeepCurrentConfig true;
                  Wizard.Text Wizard.AppIdField (Some "1");
                  Wizard.Text Wizard.ClientSecretField None;
                  Wizard.Confirm Wizard.EnableImageSupport false]) <= 1.
Proof.
  exact (proj1 (proj2 (configure_credentials
                  (fun _ => ["default"; "work"]) (fun _ _ => sample_resolved)
                  (fun s => s) (Wizard.mkEnv None None None) typing_prompter
                  sample_config None true 0 _ "work" 5 _ eq_refl))).
Defined.

Lemma apply_entered_never_clears_witness :
  let q := Onboarding.qqbot_block sample_config in
  let q' :=
    Onboarding.qqbot_block
      (Onboarding.apply_entered sample_config "work" (Some "102146862") (Some "")
         (Some "http://192.0.2.1:18765")) in
  Js.truthy (Some "102146862") && Js.truthy (Some "") = false
  /\ Onboarding.qq_enabled q' = Some false
  /\ Onboarding.qq_appId q' = Some "1"
  /\ Onboarding.entry_imageServerBaseUrl (Onboarding.account_entry q' "work")
     = Some "http://192.0.2.1:18765".
Proof.
  intros q q'. split; [reflexivity |].
  destruct (proj1 (apply_entered_never_clears sample_config "work"
                     (Some "102146862") (Some "") (Some "http://192.0.2.1:18765"))
              eq_refl) as (A & B & _).
  split; [exact A |]. split; [exact B | reflexivity].
Defined.

(** *** The dispatcher against a refused and against an answered send *)

Lemma sendText_never_throws_witness :
  exists result,
    fst (fst (sendText refusing_client
                (mkContext "group:G1" "hi" None None configured_account) 0))
    = Normal result
    /\ res_error result = Some "quota exceeded".
Proof.
  destruct (sendText_never_throws refusing_client
              (mkContext "group:G1" "hi" None None configured_account) 0)
    as (result & w' & calls & E & R & _).
  exists result. split; [rewrite E; reflexivity |].
  assert (C : calls
              = [mkEvent (GetAccessToken "102146862" "secret") None;
                 mkEvent (SendProactiveGroupMessage "token" "G1" "hi")
                   (Some (ThrownError "quota exceeded"))])
    by (injection E as _ _ <-; reflexivity).
  apply (R (SendProactiveGroupMessage "token" "G1" "hi") (ThrownError "quota exceeded")).
  rewrite C. right. left. reflexivity.
Defined.

Lemma sendText_shape_witness :
  exists result w' calls call answer,
    sendText answering_client
      (mkContext "c2c:ABCD1234" "hi" None None configured_account) 0
    = (Normal result, w', calls)
    /\ is_send "token" "ABCD1234" "hi" call
    /\ send_answer answering_client call 1 = Some (answer, w')
    /\ calls = [mkEvent (GetAccessToken "102146862" "secret") None;
                mkEvent call match answer with
                             | Normal _ => None
                             | Throw e => Some e
                             end].
Proof.
  destruct (sendText_shape answering_client
              (mkContext "c2c:ABCD1234" "hi" None None configured_account) 0)
    as (result & w' & calls & E & _ & K).
  assert (N1 : "102146862" <> "") by discriminate.
  assert (N2 : "secret" <> "") by discriminate.
  destruct (proj2 (K "102146862" "secret" eq_refl N1 eq_refl N2) "token" 1 eq_refl)
    as (call & answer & S & A & C & _).
  exists result, w', calls, call, answer. auto.
Defined.
